(** * F3DS rate-of-fire tool: manual shot editing, result display and chart data

    A shallow embedding of [src/main.js] (the analysis session: [analyzeRateOfFire],
    [onPeakToggle], [displayROFResults]) and of [src/visualizer.js]
    ([createTimeArray], [downsample], the traces built by [render]).

    Numbers.  A JavaScript number is an IEEE 754 double; a finite one is modelled
    by the rational [Q] it denotes, and every subtraction, product and quotient of
    [main.js] and [visualizer.js] is rounded to the nearest double, ties to even
    ([double]); a [Float32Array] rounds what it stores to single precision
    ([Math_fround]).  A value that may be [NaN] or [±Infinity] has type [number],
    an [option Q] whose [None] is the non-finite value; where the source goes on
    computing with a product or difference, a rational of magnitude [2 ^ 1024] or
    more stands for [±Infinity].  The statistics of the detector, whose source is
    missing, are modelled from the spec over exact rationals; [Math.sqrt] is the
    field [Math_sqrt] of the [Platform] class.

    Arrays are lists; an out-of-range read ([undefined]) is [None]. *)

From Stdlib Require Import String Ascii DecimalString DecimalNat.
From Stdlib Require Import QArith Qabs Qround Qminmax Qpower ZArith List Bool.
From Stdlib Require Import Lia Lqa.
From Stdlib Require Import Sorting.Sorted.
Import ListNotations.
Open Scope Q_scope.

(** ** JavaScript numbers and array methods *)

Definition number := option Q.

Definition Qltb (x y : Q) : bool := negb (Qle_bool y x).

(** [Math.round]: the nearest integer, halves rounded towards +infinity. *)
Definition Math_round (x : Q) : Z := Qfloor (x + (1#2)).

Definition Math_abs (x : Q) : Q := Qabs x.

(** ** IEEE 754 arithmetic *)

(** The exponent [e] of a positive number: [2 ^ e <= a < 2 ^ (e + 1)]. *)
Definition ilog2 (a : Q) : Z :=
  let e0 := (Z.log2 (Qnum a) - Z.log2 (Zpos (Qden a)))%Z in
  if Qle_bool (2 ^ e0) a then e0 else (e0 - 1)%Z.

(** The nearest integer, a half going to the even one. *)
Definition nearestEven (v : Q) : Z :=
  let low := Qfloor v in
  match Qcompare (v - inject_Z low) (1#2) with
  | Lt => low
  | Gt => (low + 1)%Z
  | Eq => if Z.even low then low else (low + 1)%Z
  end.

(** The exponent of the last significand bit of a positive number in the binary
    format with [prec] significand bits whose least positive number is
    [2 ^ emin]. *)
Definition quantum (prec emin : Z) (a : Q) : Z :=
  Z.max (ilog2 a - (prec - 1)) emin.

Definition roundPositive (prec emin : Z) (a : Q) : Q :=
  inject_Z (nearestEven (a / 2 ^ quantum prec emin a)) * 2 ^ quantum prec emin a.

(** Rounding to the nearest number of that format, ties to even. *)
Definition roundFloat (prec emin : Z) (q : Q) : Q :=
  if Qeq_bool q 0 then 0
  else if Qltb q 0 then - roundPositive prec emin (Qabs q)
  else roundPositive prec emin (Qabs q).

(** The double nearest to a real number (binary64: 53 significand bits, least
    positive number [2 ^ -1074]).  A result of magnitude [2 ^ 1024] or more is what
    the machine holds as [±Infinity]. *)
Definition double (q : Q) : Q := roundFloat 53 (-1074) q.

(** [a - b] and [a * b] on doubles. *)
Definition fsub (a b : Q) : Q := double (a - b).

Definition fmul (a b : Q) : Q := double (a * b).

(** [a / b] on doubles, kept only when finite: a zero divisor, an infinite
    dividend or an overflow give [None]. *)
Definition fdiv (a b : Q) : number :=
  if Qeq_bool b 0 then None
  else if Qltb (Qabs a) (2 ^ 1024)
  then let q := double (a / b) in
       if Qltb (Qabs q) (2 ^ 1024) then Some q else None
  else None.

(** What a [Float32Array] holds after a double is stored in it: the nearest
    single (binary32: 24 significand bits, least positive number [2 ^ -149]),
    [None] when that is infinite. *)
Definition Math_fround (q : Q) : number :=
  let r := roundFloat 24 (-149) q in
  if Qltb (Qabs r) (2 ^ 128) then Some r else None.

Definition bindn (x : number) (f : Q -> number) : number :=
  match x with Some q => f q | None => None end.

Definition mapn (f : Q -> Q) (x : number) : number := option_map f x.

Fixpoint sequence (l : list number) : option (list Q) :=
  match l with
  | [] => Some []
  | x :: l' =>
      match x, sequence l' with
      | Some q, Some qs => Some (q :: qs)
      | _, _ => None
      end
  end.

(** [arr.findIndex(p)]; [None] is the result [-1]. *)
Fixpoint findIndex {A : Type} (p : A -> bool) (l : list A) : option nat :=
  match l with
  | [] => None
  | x :: l' => if p x then Some O else option_map S (findIndex p l')
  end.

(** [arr.splice(i, 1)]: the array without its element at index [i]. *)
Definition splice1 {A : Type} (i : nat) (l : list A) : list A :=
  firstn i l ++ skipn (S i) l.

(** [arr.push(x)]. *)
Definition push {A : Type} (l : list A) (x : A) : list A := l ++ [x].

(** [arr.sort(cmp)]: [Array.prototype.sort] is stable, so for a comparator that is
    a total preorder its result is the stable sorted permutation, computed here by
    insertion.  [cmp a b > 0] means that [a] goes after [b]. *)
Fixpoint insert {A : Type} (cmp : A -> A -> Q) (x : A) (l : list A) : list A :=
  match l with
  | [] => [x]
  | y :: l' => if Qltb 0 (cmp x y) then y :: insert cmp x l' else x :: y :: l'
  end.

Fixpoint sort {A : Type} (cmp : A -> A -> Q) (l : list A) : list A :=
  match l with
  | [] => []
  | x :: l' => insert cmp x (sort cmp l')
  end.

(** [arr[i]] for an integer index that may be negative or too large. *)
Definition index {A : Type} (l : list A) (i : Z) : option A :=
  if (i <? 0)%Z then None else nth_error l (Z.to_nat i).

Definition sumQ (l : list Q) : Q := fold_right Qplus 0 l.

Definition ofNat (n : nat) : Q := inject_Z (Z.of_nat n).

(** ** Data model *)

(** The six analysis settings read from the form of [templates/view.php]. *)
Record Params := mkParams {
  peakThresholdStd : Q;
  minShotSpacing : Q;
  burstGapThreshold : Q;
  windowSize : Q;
  minPeakProminence : Q;
  minBurstCount : Z
}.

Record Burst := mkBurst {
  burstNumber : nat;
  burstShots : list Q;
  startTime : Q;
  endTime : Q;
  duration : Q;
  numShots : nat;
  meanInterval : number;
  stdInterval : number;
  meanDeviation : number;
  rateRpm : number
}.

Record Summary := mkSummary {
  totalShots : nat;
  totalBursts : nat;
  meanBurstRateRpm : number;
  minBurstRateRpm : number;
  maxBurstRateRpm : number;
  avgStdInterval : number;
  avgMeanDeviation : number
}.

(** The [RateOfFireDetector] object as [main.js] and [visualizer.js] use it. *)
Record Detector := mkDetector {
  params : Params;
  sampleRate : Q;
  audioData : list Q;
  shotTimes : list Q;
  bursts : list (list Q)
}.

(** The result object held in [currentResults]. *)
Record Results := mkResults {
  summary : Summary;
  resBursts : list Burst;
  peaks : list Z;
  audioDuration : Q
}.

(** What an analysis can throw: the detector's rejection of a configuration,
    or the [TypeError] of a failed property read. *)
Inductive Error := InvalidConfiguration | TypeError.

Inductive result (A : Type) :=
| Ok (a : A)
| Err (e : Error).
Arguments Ok {A} a.
Arguments Err {A} e.

(** What the page takes from its platform: [Math.sqrt], the browser's [File]
    objects, and the stages that precede the shot list (decoding through FFmpeg,
    envelope estimation, peak detection). *)
Class Platform := {
  File : Type;
  Math_sqrt : Q -> Q;
  decodeAudio : File -> Q * list Q;
  estimate : list Q -> Q -> Q -> list Q;
  detect : list Q -> Q -> Params -> list Z
}.

Section Analyzer.

Context `{Platform}.

(** ** The detector ([rof-detector.js]) *)

(** Modelled from the spec: a valid range of section 3, bounds included. *)
Definition inRange (lo hi x : Q) : bool := Qle_bool lo x && Qle_bool x hi.

(** Modelled from the spec: the valid ranges of the six configuration fields
    (section 3); [rof-detector.js] is not among the sources. *)
Definition validParams (p : Params) : bool :=
  inRange (1#10) 5 (peakThresholdStd p)
  && inRange (1#100) 1 (minShotSpacing p)
  && inRange (5#100) 2 (burstGapThreshold p)
  && inRange (1#1000) (1#100) (windowSize p)
  && inRange (1#100) 1 (minPeakProminence p)
  && (1 <=? minBurstCount p)%Z && (minBurstCount p <=? 50)%Z.

(** Modelled from the spec: the constructor of [RateOfFireDetector], missing with
    [rof-detector.js].  Section 7 has an out-of-range field surfaced as
    [InvalidConfiguration] before any computation begins, so the constructor
    rejects. *)
Definition newRateOfFireDetector (p : Params) : result Detector :=
  if validParams p
  then Ok (mkDetector p 0 [] [] [])
  else Err InvalidConfiguration.

(** Modelled from the spec: the grouping of section 4.3, missing with
    [rof-detector.js].  A new group starts whenever the gap between consecutive
    shot times exceeds [gap]. *)
Fixpoint groupByGap (gap : Q) (times : list Q) : list (list Q) :=
  match times with
  | [] => []
  | t :: rest =>
      match rest with
      | [] => [[t]]
      | u :: _ =>
          match groupByGap gap rest with
          | g :: gs => if Qltb gap (u - t) then [t] :: g :: gs else (t :: g) :: gs
          | [] => [[t]]
          end
      end
  end.

(** Modelled from the spec: a group is reported as a burst when it has at least
    [minBurstCount] shots (section 3). *)
Definition reported (p : Params) (g : list Q) : bool :=
  (minBurstCount p <=? Z.of_nat (length g))%Z.

(** Modelled from the spec: [groupIntoBursts], the Burst Segmenter of section 4.3,
    missing with [rof-detector.js]: sort ascending, split at gaps above
    [burstGapThreshold], drop the groups below [minBurstCount]. *)
Definition groupIntoBursts (d : Detector) : Detector :=
  mkDetector (params d) (sampleRate d) (audioData d) (shotTimes d)
    (filter (reported (params d))
       (groupByGap (burstGapThreshold (params d))
          (sort (fun a b => a - b) (shotTimes d)))).

(** Modelled from the spec: the inter-shot intervals of section 4.4, the
    differences of consecutive shot times. *)
Fixpoint intervals (ts : list Q) : list Q :=
  match ts with
  | t :: rest =>
      match rest with
      | u :: _ => (u - t) :: intervals rest
      | [] => []
      end
  | [] => []
  end.

(** Modelled from the spec: a division of the statistics, guarded as section 7
    asks of every one of them: a zero divisor gives the sentinel 0. *)
Definition guarded (a b : Q) : number :=
  if Qeq_bool b 0 then Some 0 else Some (a / b).

(** Modelled from the spec: the arithmetic mean, with the zero-length guard of
    section 7. *)
Definition mean (xs : list Q) : number :=
  match xs with
  | [] => Some 0
  | _ => guarded (sumQ xs) (ofNat (length xs))
  end.

(** Modelled from the spec: the per-burst statistics of section 4.4, missing with
    [rof-detector.js].  A burst of fewer than two shots reports every derived
    statistic, and its duration, as 0. *)
Definition burstStats (n : nat) (ts : list Q) : Burst :=
  let first := hd 0 ts in
  let final := last ts 0 in
  if (length ts <? 2)%nat
  then mkBurst n ts first final 0 (length ts) (Some 0) (Some 0) (Some 0) (Some 0)
  else
    let ivs := intervals ts in
    let m := mean ivs in
    mkBurst n ts first final (final - first) (length ts)
      m
      (mapn Math_sqrt (bindn m (fun mu => mean (map (fun x => (x - mu) * (x - mu)) ivs))))
      (bindn m (fun mu => mean (map (fun x => Math_abs (x - mu)) ivs)))
      (bindn m (fun mu => guarded 60 mu)).

(** Modelled from the spec: bursts are numbered in chronological order
    (section 4.3). *)
Fixpoint numberFrom (n : nat) (gs : list (list Q)) : list Burst :=
  match gs with
  | [] => []
  | g :: gs' => burstStats n g :: numberFrom (S n) gs'
  end.

(** Modelled from the spec: [calculateRates], the Cadence Calculator of section
    4.4 over the detector's current groups, numbered from 1. *)
Definition calculateRates (d : Detector) : list Burst :=
  numberFrom 1 (bursts d).

(** Modelled from the spec: the mean of a field over the rated bursts (section
    4.4); a non-finite entry makes the aggregate non-finite. *)
Definition meanOf (xs : list number) : number :=
  match sequence xs with
  | Some qs => mean qs
  | None => None
  end.

(** Modelled from the spec: the minimum or maximum of a field over the rated
    bursts (section 4.4), 0 when there is none. *)
Definition extremum (f : Q -> Q -> Q) (xs : list number) : number :=
  match sequence xs with
  | Some (q :: qs) => Some (fold_left f qs q)
  | Some [] => Some 0
  | None => None
  end.

(** Modelled from the spec: [generateSummary] (section 4.4), missing with
    [rof-detector.js].  The rate aggregates range over the bursts of at least
    two shots and are 0 when there is none. *)
Definition generateSummary (bs : list Burst) : Summary :=
  let rated := filter (fun b => (2 <=? numShots b)%nat) bs in
  mkSummary
    (fold_right Nat.add O (map numShots bs))
    (length bs)
    (meanOf (map rateRpm rated))
    (extremum Qmin (map rateRpm rated))
    (extremum Qmax (map rateRpm rated))
    (meanOf (map stdInterval rated))
    (meanOf (map meanDeviation rated)).

(** Modelled from the spec: [analyze], the data flow of section 2 (decode,
    envelope, peaks, bursts, statistics); the first three stages come from the
    platform. *)
Definition analyze (d : Detector) (file : File) : Detector * Results :=
  let (rate, samples) := decodeAudio file in
  let envelope := estimate samples rate (windowSize (params d)) in
  let found := detect envelope rate (params d) in
  let d1 := mkDetector (params d) rate samples
              (map (fun i => inject_Z i / rate) found) [] in
  let d2 := groupIntoBursts d1 in
  let burstResults := calculateRates d2 in
  (d2, mkResults (generateSummary burstResults) burstResults found
         (ofNat (length samples) / rate)).

(** ** The chart ([visualizer.js]) *)

Definition baseColors : list string :=
  ["#FF6B6B"; "#4ECDC4"; "#45B7D1"; "#FFA07A"; "#98D8C8";
   "#F7DC6F"; "#BB8FCE"; "#85C1E2"; "#F8B739"; "#52C77C"]%string.

Definition generateColors (count : nat) : list string :=
  map (fun i => nth (i mod length baseColors) baseColors EmptyString)
    (seq 0 count).

(** [createTimeArray]: a [Float32Array] whose entry [i] is [i / sampleRate]. *)
Definition createTimeArray (len : nat) (rate : Q) : list number :=
  map (fun i => bindn (fdiv (ofNat i) rate) Math_fround) (seq 0 len).

(** The loop [for (i = start; i < data.length; i += step)] of [downsample]; it
    stops at the first [i] outside [data]. *)
Fixpoint downsampleLoop {A B : Type} (fuel : nat) (data : list A)
    (timeArray : list B) (step i : nat) : list A * list (option B) :=
  match fuel with
  | O => ([], [])
  | S fuel' =>
      match nth_error data i with
      | None => ([], [])
      | Some v =>
          let (vs, ts) := downsampleLoop fuel' data timeArray step (i + step) in
          (v :: vs, nth_error timeArray i :: ts)
      end
  end.

(** [downsample(data, timeArray, maxPoints)].  With [maxPoints = 0] and a
    non-empty [data] the step is [Infinity] and the loop body runs once. *)
Definition downsample {A B : Type} (data : list A) (timeArray : list B)
    (maxPoints : nat) : list A * list (option B) :=
  if (length data <=? maxPoints)%nat
  then (data, map Some timeArray)
  else
    match maxPoints with
    | O => downsampleLoop 1 data timeArray 0 0
    | _ =>
        let step := (length data / maxPoints)%nat in
        downsampleLoop (length data) data timeArray step 0
    end.

Record Shape := mkShape {
  x0 : Q;
  x1 : Q;
  fillcolor : string;
  linecolor : string
}.

(** What [render] hands to Plotly: the waveform trace, the trace of shot
    markers when there are peaks, and one rectangle per burst. *)
Record Plot := mkPlot {
  waveformX : list (option number);
  waveformY : list Q;
  peakTrace : option (list number * list (option Q));
  shapes : list Shape
}.

(** The plot element as Plotly leaves it: the plot drawn on it, if any, and
    whether a [plotly_click] listener is registered on it.  Plotly gives the
    element its [on] method when it draws on it; [Plotly.newPlot] purges the
    element's listeners before it draws, and [Plotly.purge] removes the plot,
    the listeners and the [on] method. *)
Record Chart := mkChart {
  drawn : option Plot;
  listening : bool
}.

(** [typeof plotDiv.on === 'function']. *)
Definition hasOn (plotDiv : Chart) : bool :=
  match drawn plotDiv with
  | Some _ => true
  | None => false
  end.

(** [setupInteractions(onTimeClick)], as far as registering goes: whether the
    [plotly_click] listener ends up on the element.  It returns at once when the
    element is missing ([None]) or has no [on] method. *)
Definition setupInteractions (plotDiv : option Chart) : bool :=
  match plotDiv with
  | None => false
  | Some element => hasOn element
  end.

Fixpoint traverse {A B : Type} (f : A -> option B) (l : list A) : option (list B) :=
  match l with
  | [] => Some []
  | x :: l' =>
      match f x, traverse f l' with
      | Some y, Some ys => Some (y :: ys)
      | _, _ => None
      end
  end.

(** [render(detector, results)]: the traces and shapes it gives to
    [Plotly.newPlot] (the constant styling, layout and config are left out);
    [None] when [results.bursts[i]] is read for a burst that is not there (a
    [TypeError]). *)
Definition render (d : Detector) (results : Results) : option Plot :=
  let rate := sampleRate d in
  let maxPoints := (8 * 1000)%nat in
  let timeArray := createTimeArray (length (audioData d)) rate in
  let waveform := downsample (audioData d) timeArray maxPoints in
  let trace :=
    if (0 <? length (peaks results))%nat
    then Some (map (fun idx => fdiv (inject_Z idx) rate) (peaks results),
               map (fun idx => index (audioData d) idx) (peaks results))
    else None in
  let colors := generateColors (length (bursts d)) in
  match
    traverse
      (fun i =>
         match nth_error (resBursts results) i with
         | Some burstData =>
             let c := nth i colors EmptyString in
             Some (mkShape (startTime burstData) (endTime burstData)
                     (c ++ "25")%string c)
         | None => None
         end)
      (seq 0 (length (bursts d)))
  with
  | Some rects => Some (mkPlot (snd waveform) (fst waveform) trace rects)
  | None => None
  end.

(** ** The page ([main.js]) *)

Inductive Value :=
| Count (n : nat)
| Fixed (digits : nat) (v : number) (unit : string)
| Range (lo : number) (hi : option number).

Record Item := mkItem {
  label : string;
  value : Value;
  tooltip : option string
}.

Record Card := mkCard {
  borderColor : string;
  cardNumber : nat;
  cardShots : nat;
  cardRpm : number;
  cardDuration : Q;
  cardStdMs : number;
  cardMeanDevMs : number
}.

(** The two panels written by [displayROFResults]: the summary grid (its items
    and the blank cells that pad it to six) and the burst cards; [None] for
    the cards is the notice that no burst was detected. *)
Record Display := mkDisplay {
  notes : string;
  items : list Item;
  emptySlots : nat;
  burstCards : option (list Card)
}.

Definition COLORS : list string :=
  ["#FF6B6B"; "#4ECDC4"; "#45B7D1"; "#FFA07A"; "#98D8C8";
   "#F7DC6F"; "#BB8FCE"; "#85C1E2"; "#F8B739"; "#52C77C"]%string.

Definition getBurstColor (i : nat) : string :=
  nth (i mod length COLORS) COLORS EmptyString.

(** [a !== b] on numbers; a non-finite value is read as [NaN]. *)
Definition differ (a b : number) : bool :=
  match a, b with
  | Some x, Some y => negb (Qeq_bool x y)
  | _, _ => true
  end.

Definition summaryItems (sm : Summary) : list Item :=
  if (0 <? totalBursts sm)%nat
  then
    [ mkItem "Total Shots" (Count (totalShots sm)) None;
      mkItem "Total Bursts" (Count (totalBursts sm)) None;
      mkItem "Avg RPM" (Fixed 1 (meanBurstRateRpm sm) EmptyString)
        (Some "The average number of rounds fired per minute calculated across all detected burst.");
      mkItem "STD Deviation"
        (Fixed 2 (mapn (fun x => x * 1000) (avgStdInterval sm)) " ms")
        (Some "A measure of the timing consistency between shots; lower numbers indicate a more consistent cycle.");
      mkItem "Mean Deviation"
        (Fixed 2 (mapn (fun x => x * 1000) (avgMeanDeviation sm)) " ms")
        (Some "The average difference between each inter-shot interval and the mean interval");
      mkItem "Rate Range"
        (Range (minBurstRateRpm sm)
           (if differ (minBurstRateRpm sm) (maxBurstRateRpm sm)
            then Some (maxBurstRateRpm sm) else None))
        None ]%string
  else [].

Fixpoint cardsFrom (i : nat) (bs : list Burst) : list Card :=
  match bs with
  | [] => []
  | b :: bs' =>
      mkCard (getBurstColor i) (burstNumber b) (numShots b) (rateRpm b)
        (duration b)
        (mapn (fun x => x * 1000) (stdInterval b))
        (mapn (fun x => x * 1000) (meanDeviation b))
      :: cardsFrom (S i) bs'
  end.

(** [displayROFResults(detector, results)]; [buildNotes] is the trimmed text of
    the build-notes field. *)
Definition displayROFResults (buildNotes : string) (d : Detector)
    (results : Results) : Display :=
  let its := summaryItems (summary results) in
  mkDisplay buildNotes its (6 - length its)
    (if (0 <? length (resBursts results))%nat
     then Some (cardsFrom 0 (resBursts results))
     else None).

(** The values of the six number inputs, as [parseFloat] / [parseInt] read
    them. *)
Record Inputs := mkInputs {
  peakThresholdInput : Q;
  minShotSpacingInput : Q;
  burstGapThresholdInput : Q;
  windowSizeInput : Q;
  minPeakProminenceInput : Q;
  minBurstCountInput : Z
}.

(** The module state of [main.js] with the parts of the page it writes:
    [visualizer] is [None] while null and otherwise holds the state of its plot
    element ([cleanup] purges the element whenever it drops the visualizer, so a
    null visualizer goes with a bare element); [errorDiv] is the error shown, a
    prefix and the error caught. *)
Record Session := mkSession {
  inputs : Inputs;
  buildNotes : string;
  detector : option Detector;
  currentResults : option Results;
  visualizer : option Chart;
  currentFile : option File;
  rofDisplay : option Display;
  errorDiv : option (string * Error);
  resultsActive : bool
}.

(** [visualizer.render(detector, results)] on the element [old]: a new plot
    without listeners, or the element as it was when [render] throws before it
    reaches [Plotly.newPlot]. *)
Definition redraw (old : Chart) (d : Detector) (results : Results) : Chart :=
  match render d results with
  | Some p => mkChart (Some p) false
  | None => old
  end.

(** The literal [0.01] of [onPeakToggle]. *)
Definition tolerance : Q := double (1#100).

(** [onPeakToggle(clickedTime)]. *)
Definition onPeakToggle (clickedTime : Q) (s : Session) : Session :=
  match detector s, currentResults s with
  | Some d, Some cur =>
      let existingPeakIndex :=
        findIndex (fun t => Qltb (Math_abs (fsub t clickedTime)) tolerance)
          (shotTimes d) in
      let edited :=
        match existingPeakIndex with
        | Some i => splice1 i (shotTimes d)
        | None => push (shotTimes d) clickedTime
        end in
      let d1 := mkDetector (params d) (sampleRate d) (audioData d)
                  (sort (fun a b => fsub a b) edited) (bursts d) in
      let newPeaks := map (fun t => Math_round (fmul t (sampleRate d1))) (shotTimes d1) in
      let d2 := groupIntoBursts d1 in
      let burstResults := calculateRates d2 in
      let sm := generateSummary burstResults in
      let results := mkResults sm burstResults newPeaks (audioDuration cur) in
      mkSession (inputs s) (buildNotes s) (Some d2) (Some results)
        (option_map (fun old => redraw old d2 results) (visualizer s))
        (currentFile s)
        (Some (displayROFResults (buildNotes s) d2 results))
        (errorDiv s) (resultsActive s)
  | _, _ => s
  end.

(** [analyzeRateOfFire(file)]: the session it leaves and the error it throws,
    if any.  A null visualizer is replaced by a new one on the bare plot
    element, on which [setupInteractions] is called before anything is drawn.
    The progress text and the deferred resize are left out. *)
Definition analyzeRateOfFire (file : File) (s : Session) : Session * option Error :=
  let p := mkParams (peakThresholdInput (inputs s)) (minShotSpacingInput (inputs s))
             (burstGapThresholdInput (inputs s)) (windowSizeInput (inputs s))
             (minPeakProminenceInput (inputs s)) (minBurstCountInput (inputs s)) in
  match newRateOfFireDetector p with
  | Err e => (s, Some e)
  | Ok d0 =>
      let (d, results) := analyze d0 file in
      let shown := displayROFResults (buildNotes s) d results in
      let old :=
        match visualizer s with
        | Some element => element
        | None =>
            let element := mkChart None false in
            mkChart (drawn element) (setupInteractions (Some element))
        end in
      match render d results with
      | Some plot =>
          (mkSession (inputs s) (buildNotes s) (Some d) (Some results)
             (Some (mkChart (Some plot) false)) (currentFile s) (Some shown)
             (errorDiv s) (resultsActive s), None)
      | None =>
          (mkSession (inputs s) (buildNotes s) (Some d) (Some results)
             (Some old) (currentFile s) (Some shown)
             (errorDiv s) (resultsActive s), Some TypeError)
      end
  end.

(** [cleanup()]. *)
Definition cleanup (s : Session) : Session :=
  mkSession (inputs s) (buildNotes s) None None None (currentFile s)
    (rofDisplay s) None false.

(** [showError(msg)], the message being [prefix + err.message]. *)
Definition showError (prefix : string) (e : Error) (s : Session) : Session :=
  mkSession (inputs s) (buildNotes s) (detector s) (currentResults s)
    (visualizer s) (currentFile s) (rofDisplay s) (Some (prefix, e))
    (resultsActive s).

(** [handleFile(file)]; FFmpeg is taken as loaded. *)
Definition handleFile (file : option File) (s : Session) : Session :=
  match file with
  | None => s
  | Some f =>
      let s1 := cleanup s in
      let s2 := mkSession (inputs s1) (buildNotes s1) (detector s1)
                  (currentResults s1) (visualizer s1) (Some f) (rofDisplay s1)
                  None false in
      match analyzeRateOfFire f s2 with
      | (s3, None) =>
          mkSession (inputs s3) (buildNotes s3) (detector s3) (currentResults s3)
            (visualizer s3) (currentFile s3) (rofDisplay s3) (errorDiv s3) true
      | (s3, Some e) => showError "Error analyzing file: " e s3
      end
  end.

(** The body that [scheduleReanalysis] runs once its timer fires. *)
Definition reanalyze (s : Session) : Session :=
  match currentFile s with
  | None => s
  | Some f =>
      let s1 := mkSession (inputs s) (buildNotes s) (detector s)
                  (currentResults s) (visualizer s) (currentFile s)
                  (rofDisplay s) None (resultsActive s) in
      match analyzeRateOfFire f s1 with
      | (s2, None) => s2
      | (s2, Some e) => showError "Error re-analyzing: " e s2
      end
  end.

(** A session after automatic detection followed by the given clicks. *)
Definition toggles (clicks : list Q) (s : Session) : Session :=
  fold_left (fun st t => onPeakToggle t st) clicks s.

End Analyzer.

(** ** Vocabulary of the statements *)

(** A ShotSet given by its times: strictly increasing. *)
Definition increasing (l : list Q) : Prop := StronglySorted Qlt l.

(** The shot [x] passes the test of [onPeakToggle] for a click at [t]:
    [Math.abs(x - t) < 0.01], as computed in doubles. *)
Definition within (t x : Q) : Prop := Math_abs (fsub x t) < tolerance.

(** The sample indices that [onPeakToggle] derives from shot times:
    [Math.round(t * sampleRate)]. *)
Definition peaksOf (rate : Q) (ts : list Q) : list Z :=
  map (fun t => Math_round (fmul t rate)) ts.

(** The greatest double below [0.01]. *)
Definition belowTolerance : Q := tolerance - 2 ^ (-59).

(** Some input lies outside the range that [templates/view.php] declares for
    it. *)
Definition outOfRange (i : Inputs) : Prop :=
  ~ (1#10 <= peakThresholdInput i <= 5)
  \/ ~ (1#100 <= minShotSpacingInput i <= 1)
  \/ ~ (5#100 <= burstGapThresholdInput i <= 2)
  \/ ~ (1#1000 <= windowSizeInput i <= 1#100)
  \/ ~ (1#100 <= minPeakProminenceInput i <= 1)
  \/ ~ (1 <= minBurstCountInput i <= 50)%Z.

Definition zeroSummary : Summary :=
  mkSummary 0 0 (Some 0) (Some 0) (Some 0) (Some 0) (Some 0).

Definition paramsOf (i : Inputs) : Params :=
  mkParams (peakThresholdInput i) (minShotSpacingInput i)
    (burstGapThresholdInput i) (windowSizeInput i)
    (minPeakProminenceInput i) (minBurstCountInput i).



(** The positions [0, step, 2 step, ...] below [len]. *)
Definition strided (len step : nat) : list nat :=
  map (fun k => (k * step)%nat) (seq 0 ((len + step - 1) / step)).

(** ** A platform to run the model on *)

(** Square roots to six decimals. *)
Definition sqrtMicro (q : Q) : Q :=
  Z.sqrt (Qfloor (q * 1000000000000)) # 1000000.

(** A recording at 100 Hz whose envelope is the rectified signal and whose
    peaks are the samples above the threshold setting. *)
Definition peaksAbove (level : Q) (envelope : list Q) : list Z :=
  map (fun i => Z.of_nat i)
    (filter (fun i => Qltb level (nth i envelope 0)) (seq 0 (length envelope))).

Definition bench : Platform := {|
  File := list Q;
  Math_sqrt := sqrtMicro;
  decodeAudio := fun samples => (100, samples);
  estimate := fun samples _ _ => map Qabs samples;
  detect := fun envelope _ p => peaksAbove (peakThresholdStd p) envelope
|}.

Definition benchParams : Params :=
  mkParams (12#10) (5#100) (2#10) (2#1000) (1#10) 2.

Definition benchInputs : Inputs :=
  mkInputs (12#10) (5#100) (2#10) (2#1000) (1#10) 2.

(** A session holding the shot times [ts] of a recording of [n] samples at
    [rate] Hz. *)
Definition benchSession (rate : Q) (n : nat) (ts : list Q) : @Session bench :=
  @mkSession bench benchInputs EmptyString
    (Some (mkDetector benchParams rate (repeat 0 n) ts []))
    (Some (mkResults zeroSummary [] (peaksOf rate ts) (ofNat n / rate)))
    (Some (mkChart None false)) None None None true.

(** * The rest of the page, the chart and the plugin *)

(** ** Clicks on the chart ([visualizer.js], [setupInteractions]) *)

(** The [x] of a clicked point: a finite number, or a value of another type. *)
Inductive JsValue :=
| JsNumber (q : Q)
| JsOther.

Section Interaction.

Context `{Platform}.

(** The [plotly_click] listener that [setupInteractions(onTimeClick)] registers
    when it gets that far; [data] is [None] when the event or its points are
    missing. *)
Definition plotlyClick (onTimeClick : option (Q -> Session -> Session))
    (data : option (list JsValue)) (s : Session) : Session :=
  match data with
  | None => s
  | Some [] => s
  | Some (x :: _) =>
      match x, onTimeClick with
      | JsNumber time, Some callback => callback time s
      | _, _ => s
      end
  end.

(** A click on the chart: it runs the listener that [analyzeRateOfFire] asked
    for, with [onPeakToggle], when one is registered on the plot element. *)
Definition onChartClick (data : option (list JsValue)) (s : Session) : Session :=
  match visualizer s with
  | Some element =>
      if listening element then plotlyClick (Some onPeakToggle) data s else s
  | None => s
  end.

(** What happens on the page: a file is chosen or dropped, a setting is
    edited, the re-analysis timer fires, the chart is clicked. *)
Inductive PageEvent :=
| FileChosen (file : option File)
| SettingsEdited (values : Inputs)
| TimerFired
| ChartClicked (data : option (list JsValue)).

Definition pageStep (s : Session) (e : PageEvent) : Session :=
  match e with
  | FileChosen file => handleFile file s
  | SettingsEdited values =>
      mkSession values (buildNotes s) (detector s) (currentResults s)
        (visualizer s) (currentFile s) (rofDisplay s) (errorDiv s)
        (resultsActive s)
  | TimerFired => reanalyze s
  | ChartClicked data => onChartClick data s
  end.

Definition runPage (events : list PageEvent) (s : Session) : Session :=
  fold_left pageStep events s.

(** The session when the script has loaded. *)
Definition pageLoaded (values : Inputs) (notes : string) : Session :=
  mkSession values notes None None None None None None false.

Definition isClick (e : PageEvent) : bool :=
  match e with
  | ChartClicked _ => true
  | _ => false
  end.

(** No [plotly_click] listener is registered on the plot element. *)
Definition quiet (s : Session) : Prop :=
  match visualizer s with
  | Some element => listening element = false
  | None => True
  end.

End Interaction.

(** ** FFmpeg locations ([main.js], [getFFmpegURLs]) *)

Record FFmpegURLs := mkFFmpegURLs {
  coreURL : string;
  wasmURL : string;
  workerURL : option string
}.

(** [s.replace(/\/$/, '')]: [s] without a slash that ends it. *)
Fixpoint stripTrailingSlash (s : string) : string :=
  match s with
  | EmptyString => EmptyString
  | String c rest =>
      match rest with
      | EmptyString => if Ascii.eqb c "/" then EmptyString else s
      | _ => String c (stripTrailingSlash rest)
      end
  end.

(** [getFFmpegURLs()]; [pluginUrl] is [window.F3DS_ROF_CONFIG.pluginUrl], [None]
    when the configuration or the field is missing, and the two development
    URLs are the bundler's imports. *)
Definition getFFmpegURLs (devCoreURL devWasmURL : string)
    (pluginUrl : option string) : FFmpegURLs :=
  match pluginUrl with
  | Some (String c rest) =>
      let base := stripTrailingSlash (String c rest) in
      mkFFmpegURLs (base ++ "/assets/wasm/ffmpeg-core.js")
        (base ++ "/assets/wasm/ffmpeg-core.wasm")
        (Some (base ++ "/assets/js/worker.js"))
  | _ => mkFFmpegURLs devCoreURL devWasmURL None
  end%string.

(** ** Report names ([main.js], [getROFFileName]) *)

(** What [getROFFileName] reads off [new Date()], a present-day date. *)
Record DateParts := mkDateParts {
  getMonth : nat;
  getDate : nat;
  getFullYear : nat;
  getHours : nat;
  getMinutes : nat
}.

(** [String(n)] for a natural number. *)
Definition String_ (n : nat) : string :=
  NilEmpty.string_of_uint (Nat.to_uint n).

Fixpoint repeatChar (c : ascii) (n : nat) : string :=
  match n with
  | O => EmptyString
  | S k => String c (repeatChar c k)
  end.

(** [s.padStart(target, c)] for a pad of one character. *)
Definition padStart (target : nat) (c : ascii) (s : string) : string :=
  (repeatChar c (target - String.length s) ++ s)%string.

Definition getROFFileName (now : DateParts) : string :=
  let mm := padStart 2 "0" (String_ (getMonth now + 1)) in
  let dd := padStart 2 "0" (String_ (getDate now)) in
  let yyyy := String_ (getFullYear now) in
  let hh := padStart 2 "0" (String_ (getHours now)) in
  let min := padStart 2 "0" (String_ (getMinutes now)) in
  ("ROF-Report_" ++ mm ++ "-" ++ dd ++ "-" ++ yyyy ++ "_" ++ hh ++ min)%string.

(** A date as [Date] gives it. *)
Definition calendar (now : DateParts) : Prop :=
  (getMonth now < 12 /\ 1 <= getDate now <= 31
   /\ getHours now < 24 /\ getMinutes now < 60)%nat.

(** Reading a decimal numeral, leading zeros allowed. *)
Definition readNat (s : string) : option nat :=
  option_map Nat.of_uint (NilEmpty.uint_of_string s).

(** ** The WordPress plugin (the plugin's main PHP file) *)

(** What WordPress reports while a page is served: [is_singular()], the
    content of the global [$post] when it is a [WP_Post], [headers_sent()]. *)
Record WordPress := mkWordPress {
  is_singular : bool;
  post : option string;
  headers_sent : bool
}.

Record Enqueued := mkEnqueued {
  handle : string;
  src : string;
  ver : string;
  in_footer : bool
}.

(** The plugin's memo [page_has_shortcode] and what it has emitted so far:
    [header()] calls, echoed text, enqueued styles and scripts, and the data
    passed by [wp_localize_script]. *)
Record Request := mkRequest {
  page_has_shortcode : bool;
  headers : list string;
  output : string;
  styles : list Enqueued;
  scripts : list Enqueued;
  localized : list (string * string * list (string * string))
}.

Inductive Hook := SendIsolationHeaders | InjectCoiServiceworker | EnqueueAssets.

Section Plugin.

(** WordPress' [has_shortcode] and [esc_url], and the constant
    [F3DS_ROF_PLUGIN_URL]. *)
Variable has_shortcode : string -> string -> bool.
Variable esc_url : string -> string.
Variable F3DS_ROF_PLUGIN_URL : string.

(** [current_page_has_shortcode()]: the answer and the request with its memo. *)
Definition current_page_has_shortcode (wp : WordPress) (r : Request)
    : bool * Request :=
  if page_has_shortcode r then (true, r)
  else if negb (is_singular wp) then (false, r)
  else
    match post wp with
    | Some post_content =>
        if has_shortcode post_content "f3ds_rof"%string
        then (true, mkRequest true (headers r) (output r) (styles r)
                      (scripts r) (localized r))
        else (false, r)
    | None => (false, r)
    end.

Definition send_isolation_headers (wp : WordPress) (r : Request) : Request :=
  let (found, r1) := current_page_has_shortcode wp r in
  if negb found then r1
  else if headers_sent wp then r1
  else
    mkRequest (page_has_shortcode r1)
      (headers r1 ++ ["Cross-Origin-Opener-Policy: same-origin";
                      "Cross-Origin-Embedder-Policy: credentialless"]%string)
      (output r1) (styles r1) (scripts r1) (localized r1).

Definition inject_coi_serviceworker (wp : WordPress) (r : Request) : Request :=
  let (found, r1) := current_page_has_shortcode wp r in
  if negb found then r1
  else
    let sw_url :=
      esc_url (F3DS_ROF_PLUGIN_URL ++ "assets/coi-serviceworker.js")%string in
    let quote := String "034" EmptyString in
    let newline := String "010" EmptyString in
    mkRequest (page_has_shortcode r1) (headers r1)
      (output r1 ++ "<script src=" ++ quote ++ sw_url ++ quote ++ "></script>"
         ++ newline)%string
      (styles r1) (scripts r1) (localized r1).

Definition enqueue_assets (wp : WordPress) (r : Request) : Request :=
  let (found, r1) := current_page_has_shortcode wp r in
  if negb found then r1
  else
    mkRequest (page_has_shortcode r1) (headers r1) (output r1)
      (styles r1 ++ [mkEnqueued "f3ds-rof-style"%string
                       (F3DS_ROF_PLUGIN_URL ++ "assets/css/style.css")%string
                       "1.1.1"%string false])
      (scripts r1 ++ [mkEnqueued "f3ds-rof-main"%string
                        (F3DS_ROF_PLUGIN_URL ++ "assets/js/app.bundle.js")%string
                        "1.1.1"%string true])
      (localized r1 ++ [("f3ds-rof-main"%string, "F3DS_ROF_CONFIG"%string,
                         [("pluginUrl"%string, F3DS_ROF_PLUGIN_URL);
                          ("wasmUrl"%string,
                           (F3DS_ROF_PLUGIN_URL ++ "assets/wasm/")%string)])]).

Definition runHook (wp : WordPress) (h : Hook) (r : Request) : Request :=
  match h with
  | SendIsolationHeaders => send_isolation_headers wp r
  | InjectCoiServiceworker => inject_coi_serviceworker wp r
  | EnqueueAssets => enqueue_assets wp r
  end.

(** WordPress firing the plugin's hooks in some order while it serves a page. *)
Definition runHooks (wp : WordPress) (hs : list Hook) (r : Request) : Request :=
  fold_left (fun acc h => runHook wp h acc) hs r.

End Plugin.

(** The page carries the shortcode, as WordPress reports it. *)
Definition carriesShortcode (has_shortcode : string -> string -> bool)
    (wp : WordPress) : bool :=
  is_singular wp
  && match post wp with
     | Some post_content => has_shortcode post_content "f3ds_rof"%string
     | None => false
     end.

(** The shot times that a click at [t] leaves, as [onPeakToggle] computes
    them. *)
Definition editedTimes (t : Q) (l : list Q) : list Q :=
  sort (fun a b => fsub a b)
    match findIndex (fun x => Qltb (Math_abs (fsub x t)) tolerance) l with
    | Some i => splice1 i l
    | None => push l t
    end.

(** Shot times in increasing order, none passing the tolerance test of a click
    on an earlier one. *)
Definition apart (l : list Q) : Prop :=
  StronglySorted (fun a b => a < b /\ ~ within a b) l.

(** [y] is the earliest shot of [l] within the tolerance of [t]. *)
Definition firstWithin (t : Q) (l : list Q) (y : Q) : Prop :=
  In y l /\ within t y /\ forall z, In z l -> within t z -> y <= z.

(** A [has_shortcode] for the bench: the content holds the opening bracket
    followed by the tag. *)
Definition benchHasShortcode (content tag : string) : bool :=
  match String.index 0 ("[" ++ tag) content with
  | Some _ => true
  | None => false
  end.

(** A session with nothing loaded. *)
Definition benchEmpty : @Session bench :=
  @mkSession bench benchInputs EmptyString None None None None None None false.





(** A detector with one burst and its result, for the chart. *)
Definition benchBurst : Burst :=
  mkBurst 1 [1#100; 2#100] (1#100) (2#100) (1#100) 2
    (Some (1#100)) (Some 0) (Some 0) (Some 6000).

Definition benchDetector : Detector :=
  mkDetector benchParams 100 [0; 2; 3; 0] [1#100; 2#100] [[1#100; 2#100]].

Definition benchResults : Results :=
  mkResults zeroSummary [benchBurst] [1; 2; 9]%Z (4#100).

(** * Properties *)

(** ** Numbers *)

Lemma Qltb_lt (x y : Q) : Qltb x y = true <-> x < y.
Proof.
  unfold Qltb. rewrite negb_true_iff. split; intro Hxy.
  - apply Qnot_le_lt. intro Hle. apply Qle_bool_iff in Hle. congruence.
  - destruct (Qle_bool y x) eqn:E; [|reflexivity].
    apply Qle_bool_iff in E. exfalso. apply (Qlt_not_le _ _ Hxy E).
Qed.

Lemma Qltb_ge (x y : Q) : Qltb x y = false <-> y <= x.
Proof.
  unfold Qltb. rewrite negb_false_iff. apply Qle_bool_iff.
Qed.

Lemma Math_round_mono (x y : Q) : x <= y -> (Math_round x <= Math_round y)%Z.
Proof.
  intro Hxy. unfold Math_round. apply Qfloor_resp_le. lra.
Qed.

Lemma Math_round_near (x : Q) :
  inject_Z (Math_round x) - (1#2) <= x /\ x < inject_Z (Math_round x) + (1#2).
Proof.
  unfold Math_round. split.
  - pose proof (Qfloor_le (x + (1#2))). lra.
  - pose proof (Qlt_floor (x + (1#2))) as Hlt.
    rewrite inject_Z_plus in Hlt. change (inject_Z 1) with 1 in Hlt. lra.
Qed.

(** ** Powers of two *)

Lemma pow2_pos (e : Z) : 0 < 2 ^ e.
Proof. apply Qpower_0_lt. reflexivity. Qed.

Lemma pow2_plus (a b : Z) : 2 ^ (a + b) == 2 ^ a * 2 ^ b.
Proof. apply Qpower_plus. discriminate. Qed.

Lemma pow2_succ (a : Z) : 2 ^ (a + 1) == 2 * 2 ^ a.
Proof. rewrite pow2_plus. change (2 ^ 1) with 2. ring. Qed.

Lemma pow2_le (a b : Z) : (a <= b)%Z -> 2 ^ a <= 2 ^ b.
Proof. intro H. apply Qpower_le_compat_l; [exact H | discriminate]. Qed.

Lemma pow2_lt (a b : Z) : (a < b)%Z -> 2 ^ a < 2 ^ b.
Proof. intro H. apply Qpower_lt_compat_l; [exact H | reflexivity]. Qed.

Lemma pow2_lt_inv (a b : Z) : 2 ^ a < 2 ^ b -> (a < b)%Z.
Proof. intro H. apply (Qpower_lt_compat_l_inv 2); [exact H | reflexivity]. Qed.

Lemma pow2_Z (k : Z) : (0 <= k)%Z -> 2 ^ k == inject_Z (2 ^ k).
Proof. intro H. symmetry. apply (Zpower_Qpower 2 k H). Qed.

(** ** The exponent of a positive number *)

Lemma ilog2_spec (a : Q) : 0 < a -> 2 ^ ilog2 a <= a /\ a < 2 ^ (ilog2 a + 1).
Proof.
  intro Ha. unfold ilog2. destruct a as [n d]. cbn [Qnum Qden].
  assert (Hn : (0 < n)%Z) by (unfold Qlt in Ha; simpl in Ha; lia).
  destruct (Z.log2_spec n Hn) as [Hn1 Hn2].
  destruct (Z.log2_spec (Zpos d) ltac:(lia)) as [Hd1 Hd2].
  pose proof (Z.log2_nonneg n) as Hln.
  pose proof (Z.log2_nonneg (Zpos d)) as Hld.
  set (ln := Z.log2 n) in *. set (ld := Z.log2 (Zpos d)) in *.
  assert (QN1 : 2 ^ ln <= inject_Z n).
  { rewrite pow2_Z by lia. rewrite <- Zle_Qle. exact Hn1. }
  assert (QN2 : inject_Z n < 2 * 2 ^ ln).
  { rewrite <- pow2_succ, pow2_Z by lia. rewrite <- Zlt_Qlt.
    exact Hn2. }
  assert (QD1 : 2 ^ ld <= inject_Z (Zpos d)).
  { rewrite pow2_Z by lia. rewrite <- Zle_Qle. exact Hd1. }
  assert (QD2 : inject_Z (Zpos d) < 2 * 2 ^ ld).
  { rewrite <- pow2_succ, pow2_Z by lia. rewrite <- Zlt_Qlt.
    exact Hd2. }
  assert (HE : 2 ^ (ln - ld) * 2 ^ ld == 2 ^ ln).
  { rewrite <- pow2_plus. replace (ln - ld + ld)%Z with ln by ring. reflexivity. }
  assert (Hq : (n # d) * inject_Z (Zpos d) == inject_Z n).
  { rewrite (Qmake_Qdiv n d). field. discriminate. }
  pose proof (pow2_pos (ln - ld)) as HEpos.
  pose proof (pow2_pos ld) as HDpos.
  pose proof (pow2_pos ln) as HNpos.
  set (a := n # d) in *. set (N := inject_Z n) in *.
  set (D := inject_Z (Zpos d)) in *.
  set (E := 2 ^ (ln - ld)) in *. set (PD := 2 ^ ld) in *. set (PN := 2 ^ ln) in *.
  destruct (Qle_bool E a) eqn:Hcmp.
  - apply Qle_bool_iff in Hcmp. split; [exact Hcmp|].
    rewrite pow2_succ. fold E.
    destruct (Qlt_le_dec a (2 * E)) as [Hlt | Hge]; [exact Hlt|].
    exfalso. nra.
  - assert (Hlt : a < E).
    { apply Qnot_le_lt. intro Hle. apply Qle_bool_iff in Hle. congruence. }
    assert (Hhalf : 2 * 2 ^ (ln - ld - 1) == E).
    { rewrite <- pow2_succ. replace (ln - ld - 1 + 1)%Z with (ln - ld)%Z by ring.
      reflexivity. }
    replace (ln - ld - 1 + 1)%Z with (ln - ld)%Z by ring. fold E.
    split; [|exact Hlt].
    set (H2 := 2 ^ (ln - ld - 1)) in *.
    destruct (Qlt_le_dec a H2) as [Hbad | Hok]; [|exact Hok].
    exfalso. nra.
Qed.

Lemma ilog2_unique (a : Q) (k : Z) :
  2 ^ k <= a -> a < 2 ^ (k + 1) -> ilog2 a = k.
Proof.
  intros Hlo Hhi.
  assert (Ha : 0 < a) by (pose proof (pow2_pos k); lra).
  destruct (ilog2_spec a Ha) as [Hlo' Hhi'].
  assert (H1 : (ilog2 a < k + 1)%Z) by (apply pow2_lt_inv; lra).
  assert (H2 : (k < ilog2 a + 1)%Z) by (apply pow2_lt_inv; lra).
  lia.
Qed.

Lemma ilog2_comp (a b : Q) : 0 < a -> a == b -> ilog2 a = ilog2 b.
Proof.
  intros Ha Hab. symmetry. destruct (ilog2_spec a Ha) as [Hlo Hhi].
  apply ilog2_unique; rewrite <- Hab; assumption.
Qed.

Lemma ilog2_mono (a b : Q) : 0 < a -> a <= b -> (ilog2 a <= ilog2 b)%Z.
Proof.
  intros Ha Hab.
  destruct (ilog2_spec a Ha) as [Hlo _].
  destruct (ilog2_spec b ltac:(lra)) as [_ Hhi].
  assert (H : (ilog2 a < ilog2 b + 1)%Z) by (apply pow2_lt_inv; lra).
  lia.
Qed.

(** ** Rounding to an integer *)

Lemma nearestEven_comp (v w : Q) : v == w -> nearestEven v = nearestEven w.
Proof.
  intro H. unfold nearestEven. rewrite (Qfloor_comp _ _ H).
  assert (Hr : v - inject_Z (Qfloor w) == w - inject_Z (Qfloor w))
    by (rewrite H; reflexivity).
  rewrite (Qcompare_comp _ _ Hr _ _ (Qeq_refl (1#2))). reflexivity.
Qed.

Lemma floor_rest (v : Q) :
  0 <= v - inject_Z (Qfloor v) /\ v - inject_Z (Qfloor v) < 1.
Proof.
  pose proof (Qfloor_le v). pose proof (Qlt_floor v) as Hlt.
  rewrite inject_Z_plus in Hlt. change (inject_Z 1) with 1 in Hlt. lra.
Qed.

Lemma nearestEven_cases (v : Q) :
  (nearestEven v = Qfloor v /\ v - inject_Z (Qfloor v) <= 1#2)
  \/ (nearestEven v = (Qfloor v + 1)%Z /\ 1#2 <= v - inject_Z (Qfloor v)).
Proof.
  unfold nearestEven.
  destruct (Qcompare (v - inject_Z (Qfloor v)) (1#2)) eqn:E.
  - apply Qeq_alt in E. destruct (Z.even (Qfloor v)); [left | right];
      (split; [reflexivity | lra]).
  - apply Qlt_alt in E. left. split; [reflexivity | lra].
  - apply Qgt_alt in E. right. split; [reflexivity | lra].
Qed.

Lemma nearestEven_near (v : Q) : Qabs (inject_Z (nearestEven v) - v) <= 1#2.
Proof.
  destruct (floor_rest v) as [H0 H1].
  apply Qabs_Qle_condition.
  destruct (nearestEven_cases v) as [[-> Hr] | [-> Hr]].
  - split; lra.
  - rewrite inject_Z_plus. change (inject_Z 1) with 1. split; lra.
Qed.

Lemma nearestEven_Z (k : Z) : nearestEven (inject_Z k) = k.
Proof.
  unfold nearestEven. rewrite Qfloor_Z.
  assert (H : Qcompare (inject_Z k - inject_Z k) (1#2) = Lt).
  { apply Qlt_alt. setoid_replace (inject_Z k - inject_Z k) with 0 by ring.
    reflexivity. }
  rewrite H. reflexivity.
Qed.

Lemma nearestEven_mono (v w : Q) : v <= w -> (nearestEven v <= nearestEven w)%Z.
Proof.
  intro Hvw. pose proof (Qfloor_resp_le _ _ Hvw) as Hfl.
  destruct (nearestEven_cases v) as [[Hv Hrv] | [Hv Hrv]];
    destruct (nearestEven_cases w) as [[Hw Hrw] | [Hw Hrw]]; try lia.
  destruct (Z.eq_dec (Qfloor v) (Qfloor w)) as [Heq | Hne]; [|lia].
  rewrite <- Heq in Hrw.
  assert (Hsame : v == w) by lra.
  rewrite (nearestEven_comp _ _ Hsame). lia.
Qed.

Lemma nearestEven_nonneg (v : Q) : 0 <= v -> (0 <= nearestEven v)%Z.
Proof.
  intro Hv. change 0%Z with (nearestEven (inject_Z 0)) at 1.
  apply nearestEven_mono. exact Hv.
Qed.

(** ** Rounding to a binary format *)

Section Rounding.

Variables prec emin : Z.
Hypothesis Hprec : (1 <= prec)%Z.

(** Rounding at a fixed exponent. *)
Lemma scaled_mono (e : Z) (v w : Q) :
  v <= w ->
  inject_Z (nearestEven (v / 2 ^ e)) * 2 ^ e
  <= inject_Z (nearestEven (w / 2 ^ e)) * 2 ^ e.
Proof.
  intro Hvw. pose proof (pow2_pos e) as Hpos.
  apply Qmult_le_compat_r; [|lra].
  rewrite <- Zle_Qle. apply nearestEven_mono.
  apply Qmult_le_compat_r; [exact Hvw|].
  apply Qlt_le_weak. apply Qinv_lt_0_compat. exact Hpos.
Qed.

Lemma scaled_power (e k : Z) :
  (e <= k)%Z -> inject_Z (nearestEven (2 ^ k / 2 ^ e)) * 2 ^ e == 2 ^ k.
Proof.
  intro Hek. pose proof (pow2_pos e) as Hpos.
  assert (Hq : 2 ^ k / 2 ^ e == inject_Z (2 ^ (k - e))).
  { rewrite <- pow2_Z by lia.
    assert (Hk : 2 ^ k == 2 ^ (k - e) * 2 ^ e).
    { rewrite <- pow2_plus. replace (k - e + e)%Z with k by ring. reflexivity. }
    rewrite Hk. field. lra. }
  rewrite (nearestEven_comp _ _ Hq), nearestEven_Z, <- pow2_Z by lia.
  rewrite <- pow2_plus. replace (k - e + e)%Z with k by ring. reflexivity.
Qed.

Lemma roundPositive_nonneg (a : Q) : 0 < a -> 0 <= roundPositive prec emin a.
Proof.
  intro Ha. unfold roundPositive.
  pose proof (pow2_pos (quantum prec emin a)) as Hpos.
  apply Qmult_le_0_compat; [|lra].
  change 0 with (inject_Z 0). rewrite <- Zle_Qle. apply nearestEven_nonneg.
  apply Qle_shift_div_l; [exact Hpos | lra].
Qed.

Lemma roundPositive_mono (a b : Q) :
  0 < a -> a <= b -> roundPositive prec emin a <= roundPositive prec emin b.
Proof.
  intros Ha Hab. unfold roundPositive.
  pose proof (ilog2_mono a b Ha Hab) as Hlog.
  assert (Hb : 0 < b) by lra.
  destruct (Z.eq_dec (quantum prec emin a) (quantum prec emin b)) as [Heq | Hne].
  - rewrite Heq. apply scaled_mono. exact Hab.
  - assert (Hlt : (quantum prec emin a < quantum prec emin b)%Z)
      by (unfold quantum in *; lia).
    assert (Heb : quantum prec emin b = (ilog2 b - (prec - 1))%Z)
      by (unfold quantum in *; lia).
    assert (Hla : (ilog2 a < ilog2 b)%Z) by (unfold quantum in *; lia).
    destruct (ilog2_spec a Ha) as [_ Hahi].
    destruct (ilog2_spec b Hb) as [Hblo _].
    assert (HaL : a <= 2 ^ ilog2 b).
    { apply Qlt_le_weak. eapply Qlt_le_trans; [exact Hahi|].
      apply pow2_le. lia. }
    apply Qle_trans with (2 ^ ilog2 b).
    + rewrite <- (scaled_power (quantum prec emin a) (ilog2 b)) by lia.
      apply scaled_mono. exact HaL.
    + rewrite <- (scaled_power (quantum prec emin b) (ilog2 b)) at 1 by lia.
      apply scaled_mono. exact Hblo.
Qed.

Lemma roundFloat_zero (q : Q) : q == 0 -> roundFloat prec emin q = 0.
Proof.
  intro Hq. unfold roundFloat.
  apply Qeq_bool_iff in Hq. rewrite Hq. reflexivity.
Qed.

Lemma roundFloat_positive (q : Q) :
  0 < q -> roundFloat prec emin q = roundPositive prec emin (Qabs q).
Proof.
  intro Hq. unfold roundFloat.
  destruct (Qeq_bool q 0) eqn:E.
  { apply Qeq_bool_iff in E. lra. }
  destruct (Qltb q 0) eqn:L; [|reflexivity].
  apply Qltb_lt in L. lra.
Qed.

Lemma roundFloat_negative (q : Q) :
  q < 0 -> roundFloat prec emin q = - roundPositive prec emin (Qabs q).
Proof.
  intro Hq. unfold roundFloat.
  destruct (Qeq_bool q 0) eqn:E.
  { apply Qeq_bool_iff in E. lra. }
  destruct (Qltb q 0) eqn:L; [reflexivity|].
  apply Qltb_ge in L. lra.
Qed.

(** Rounding is monotone. *)
Lemma roundFloat_mono (x y : Q) :
  x <= y -> roundFloat prec emin x <= roundFloat prec emin y.
Proof.
  intro Hxy.
  destruct (Q_dec x 0) as [[Hx | Hx] | Hx];
    destruct (Q_dec y 0) as [[Hy | Hy] | Hy]; try (exfalso; lra).
  - rewrite (roundFloat_negative x Hx), (roundFloat_negative y Hy).
    apply Qopp_le_compat. apply roundPositive_mono.
    + rewrite Qabs_neg by lra. lra.
    + rewrite !Qabs_neg by lra. lra.
  - rewrite (roundFloat_negative x Hx), (roundFloat_positive y Hy).
    pose proof (roundPositive_nonneg (Qabs x)) as H1.
    pose proof (roundPositive_nonneg (Qabs y)) as H2.
    rewrite Qabs_neg in H1 at 1 by lra. rewrite Qabs_pos in H2 at 1 by lra.
    specialize (H1 ltac:(lra)). specialize (H2 ltac:(lra)). lra.
  - rewrite (roundFloat_negative x Hx), (roundFloat_zero y Hy).
    pose proof (roundPositive_nonneg (Qabs x)) as H1.
    rewrite Qabs_neg in H1 at 1 by lra. specialize (H1 ltac:(lra)). lra.
  - rewrite (roundFloat_positive x Hx), (roundFloat_positive y Hy).
    apply roundPositive_mono.
    + rewrite Qabs_pos by lra. exact Hx.
    + rewrite !Qabs_pos by lra. exact Hxy.
  - rewrite (roundFloat_zero x Hx), (roundFloat_positive y Hy).
    pose proof (roundPositive_nonneg (Qabs y)) as H2.
    rewrite Qabs_pos in H2 at 1 by lra. apply H2. lra.
  - rewrite (roundFloat_zero x Hx), (roundFloat_zero y Hy). lra.
Qed.

Lemma roundFloat_comp (x y : Q) :
  x == y -> roundFloat prec emin x == roundFloat prec emin y.
Proof.
  intro Hxy. apply Qle_antisym; apply roundFloat_mono; lra.
Qed.

Lemma Qabs_opp_eq (x : Q) : Qabs (- x) = Qabs x.
Proof.
  destruct x as [n d]. unfold Qabs, Qopp. cbn [Qnum Qden].
  rewrite Z.abs_opp. reflexivity.
Qed.

Lemma roundFloat_opp (x : Q) : roundFloat prec emin (- x) == - roundFloat prec emin x.
Proof.
  destruct (Q_dec x 0) as [[Hx | Hx] | Hx].
  - rewrite (roundFloat_negative x Hx), (roundFloat_positive (- x)) by lra.
    rewrite Qabs_opp_eq. ring.
  - rewrite (roundFloat_positive x Hx), (roundFloat_negative (- x)) by lra.
    rewrite Qabs_opp_eq. reflexivity.
  - rewrite (roundFloat_zero x Hx), (roundFloat_zero (- x)) by lra. reflexivity.
Qed.

(** The rounding error: half a unit in the last place. *)
Lemma roundPositive_error (a : Q) :
  0 < a -> Qabs (roundPositive prec emin a - a) <= a * 2 ^ (- prec) + 2 ^ (emin - 1).
Proof.
  intro Ha. unfold roundPositive.
  set (e := quantum prec emin a).
  pose proof (pow2_pos e) as He.
  pose proof (nearestEven_near (a / 2 ^ e)) as Hnear.
  set (m := inject_Z (nearestEven (a / 2 ^ e))) in *.
  assert (Hdiff : m * 2 ^ e - a == (m - a / 2 ^ e) * 2 ^ e) by (field; lra).
  rewrite Hdiff, Qabs_Qmult, (Qabs_pos (2 ^ e)) by lra.
  assert (Hhalf : Qabs (m - a / 2 ^ e) * 2 ^ e <= (1#2) * 2 ^ e)
    by (apply Qmult_le_compat_r; [exact Hnear | lra]).
  assert (Hquant : (1#2) * 2 ^ e <= a * 2 ^ (- prec) + 2 ^ (emin - 1)).
  { destruct (ilog2_spec a Ha) as [Hlo _].
    pose proof (pow2_pos (- prec)) as Hp. pose proof (pow2_pos (emin - 1)) as Hm.
    assert (H1 : (1#2) * 2 ^ (ilog2 a - (prec - 1)) == 2 ^ ilog2 a * 2 ^ (- prec)).
    { rewrite <- pow2_plus.
      assert (H2 : 2 * ((1#2) * 2 ^ (ilog2 a - (prec - 1)))
                   == 2 * 2 ^ (ilog2 a + - prec)).
      { rewrite <- pow2_succ.
        replace (ilog2 a + - prec + 1)%Z with (ilog2 a - (prec - 1))%Z by ring.
        ring. }
      lra. }
    assert (H3 : (1#2) * 2 ^ emin == 2 ^ (emin - 1)).
    { assert (H4 : 2 * 2 ^ (emin - 1) == 2 ^ emin).
      { rewrite <- pow2_succ. replace (emin - 1 + 1)%Z with emin by ring.
        reflexivity. }
      lra. }
    assert (Hmul : 2 ^ ilog2 a * 2 ^ (- prec) <= a * 2 ^ (- prec))
      by (apply Qmult_le_compat_r; [exact Hlo | lra]).
    assert (Hnn : 0 <= a * 2 ^ (- prec))
      by (apply Qmult_le_0_compat; lra).
    unfold e, quantum.
    destruct (Z.max_spec (ilog2 a - (prec - 1)) emin) as [[_ ->] | [_ ->]]; lra. }
  lra.
Qed.

Lemma roundFloat_error (x : Q) :
  Qabs (roundFloat prec emin x - x) <= Qabs x * 2 ^ (- prec) + 2 ^ (emin - 1).
Proof.
  pose proof (pow2_pos (- prec)) as Hp. pose proof (pow2_pos (emin - 1)) as Hm.
  destruct (Q_dec x 0) as [[Hx | Hx] | Hx].
  - rewrite (roundFloat_negative x Hx).
    pose proof (roundPositive_error (Qabs x)) as H.
    assert (Ha : Qabs x == - x) by (apply Qabs_neg; lra).
    assert (Hd : - roundPositive prec emin (Qabs x) - x
                 == - (roundPositive prec emin (Qabs x) - Qabs x)) by lra.
    rewrite Hd, Qabs_opp. apply H. lra.
  - rewrite (roundFloat_positive x Hx).
    pose proof (roundPositive_error (Qabs x)) as H.
    assert (Ha : Qabs x == x) by (apply Qabs_pos; lra).
    assert (Hd : roundPositive prec emin (Qabs x) - x
                 == roundPositive prec emin (Qabs x) - Qabs x) by lra.
    rewrite Hd. apply H. lra.
  - rewrite (roundFloat_zero x Hx).
    assert (Hd : 0 - x == 0) by lra. rewrite Hd. simpl Qabs at 1.
    pose proof (Qabs_nonneg x). nra.
Qed.

End Rounding.

(** ** Doubles *)

Lemma double_mono (x y : Q) : x <= y -> double x <= double y.
Proof. apply roundFloat_mono. lia. Qed.

Lemma double_comp (x y : Q) : x == y -> double x == double y.
Proof. apply roundFloat_comp. lia. Qed.

Lemma double_opp (x : Q) : double (- x) == - double x.
Proof. apply roundFloat_opp. Qed.

Lemma double_zero (x : Q) : x == 0 -> double x = 0.
Proof. apply roundFloat_zero. Qed.

Lemma double_error (x : Q) :
  Qabs (double x - x) <= Qabs x * 2 ^ (-53) + 2 ^ (-1075).
Proof. apply (roundFloat_error 53 (-1074)). Qed.

Lemma single_error (x : Q) :
  Qabs (roundFloat 24 (-149) x - x) <= Qabs x * 2 ^ (-24) + 2 ^ (-150).
Proof. apply (roundFloat_error 24 (-149)). Qed.

(** The double that the literal [0.01] denotes lies above 1/100; the double
    before it lies below. *)
Lemma tolerance_value : tolerance == 5764607523034235 # 576460752303423488.
Proof. vm_compute. reflexivity. Qed.

Lemma belowTolerance_value :
  belowTolerance == 5764607523034234 # 576460752303423488.
Proof. vm_compute. reflexivity. Qed.

Lemma belowTolerance_double : double belowTolerance == belowTolerance.
Proof. vm_compute. reflexivity. Qed.

(** ** The tolerance test *)

Lemma within_test (t x : Q) :
  Qltb (Math_abs (fsub x t)) tolerance = true <-> within t x.
Proof. apply Qltb_lt. Qed.

Lemma outside_test (t x : Q) :
  Qltb (Math_abs (fsub x t)) tolerance = false <-> ~ within t x.
Proof.
  unfold within. rewrite Qltb_ge. split; intro Hx.
  - apply Qle_not_lt. exact Hx.
  - apply Qnot_lt_le. exact Hx.
Qed.

Lemma within_dec (t x : Q) : within t x \/ ~ within t x.
Proof.
  destruct (Qltb (Math_abs (fsub x t)) tolerance) eqn:E.
  - left. apply within_test. exact E.
  - right. apply outside_test. exact E.
Qed.

(** A shot that passes the test is less than 1/100 s from the click. *)
Lemma within_exact (t x : Q) : within t x -> Qabs (x - t) < 1#100.
Proof.
  unfold within, Math_abs, fsub. intro Hw.
  pose proof tolerance_value as Htol.
  apply Qnot_le_lt. intro Hfar. apply (Qlt_not_le _ _ Hw). clear Hw.
  destruct (Qlt_le_dec (x - t) 0) as [Hneg | Hpos].
  - rewrite Qabs_neg in Hfar by lra.
    assert (Hle : double (x - t) <= double (- (1#100)))
      by (apply double_mono; lra).
    rewrite double_opp in Hle. fold tolerance in Hle.
    rewrite Qabs_neg by lra. lra.
  - rewrite Qabs_pos in Hfar by lra.
    assert (Hle : double (1#100) <= double (x - t))
      by (apply double_mono; lra).
    fold tolerance in Hle. rewrite Qabs_pos by lra. lra.
Qed.

Lemma within_window (t x : Q) :
  within t x -> x - (1#100) < t /\ t < x + (1#100).
Proof.
  intro Hw. apply Qabs_diff_Qlt_condition. apply within_exact. exact Hw.
Qed.

(** A shot that fails it is more than the double below [0.01] away. *)
Lemma outside_far (t x : Q) : ~ within t x -> belowTolerance < Qabs (x - t).
Proof.
  intro Hout. apply Qnot_le_lt. intro Hnear. apply Hout. clear Hout.
  unfold within, Math_abs, fsub.
  pose proof tolerance_value as Htol. pose proof belowTolerance_value as Hbel.
  pose proof belowTolerance_double as Hfix.
  apply Qabs_Qle_condition in Hnear. destruct Hnear as [Hlo Hhi].
  assert (H1 : double (- belowTolerance) <= double (x - t))
    by (apply double_mono; exact Hlo).
  assert (H2 : double (x - t) <= double belowTolerance)
    by (apply double_mono; exact Hhi).
  rewrite double_opp in H1.
  apply Qabs_Qlt_condition. split; lra.
Qed.

Lemma outside_window (t x : Q) :
  ~ within t x -> x + belowTolerance < t \/ t + belowTolerance < x.
Proof.
  intro Hout. apply outside_far in Hout.
  pose proof belowTolerance_value as Hbel.
  destruct (Qlt_le_dec (x - t) 0) as [Hneg | Hpos].
  - rewrite Qabs_neg in Hout by lra. left. lra.
  - rewrite Qabs_pos in Hout by lra. right. lra.
Qed.

Lemma far_outside (t x : Q) : 1#100 <= Qabs (x - t) -> ~ within t x.
Proof.
  intros Hfar Hw. apply within_exact in Hw. lra.
Qed.

Lemma within_self (t : Q) : within t t.
Proof.
  unfold within, Math_abs, fsub. rewrite double_zero by ring.
  pose proof tolerance_value as Htol. change (Qabs 0) with 0. lra.
Qed.

Lemma outside_apart (t x : Q) : ~ within t x -> ~ x == t.
Proof.
  intros Hout Heq. apply Hout. unfold within, Math_abs, fsub.
  rewrite double_zero by lra.
  pose proof tolerance_value as Htol. change (Qabs 0) with 0. lra.
Qed.

(** The test is symmetric, and the shots that pass it form an interval. *)
Lemma within_sym (t x : Q) : within t x -> within x t.
Proof.
  unfold within, Math_abs, fsub. intro Hw.
  assert (Heq : double (t - x) == - double (x - t)).
  { rewrite <- double_opp. apply double_comp. ring. }
  rewrite Heq, Qabs_opp. exact Hw.
Qed.

Lemma within_between (t x y : Q) :
  within t x -> (t <= y /\ y <= x) \/ (x <= y /\ y <= t) -> within t y.
Proof.
  unfold within, Math_abs, fsub. intros Hw Hy.
  assert (Hz : double 0 = 0) by (apply double_zero; reflexivity).
  apply Qabs_Qlt_condition in Hw. destruct Hw as [Hlo Hhi].
  pose proof tolerance_value as Htol.
  apply Qabs_Qlt_condition.
  destruct Hy as [[H1 H2] | [H1 H2]].
  - assert (Ha : double 0 <= double (y - t)) by (apply double_mono; lra).
    assert (Hb : double (y - t) <= double (x - t)) by (apply double_mono; lra).
    rewrite Hz in Ha. split; lra.
  - assert (Ha : double (y - t) <= double 0) by (apply double_mono; lra).
    assert (Hb : double (x - t) <= double (y - t)) by (apply double_mono; lra).
    rewrite Hz in Ha. split; lra.
Qed.

(** The comparator of the sort, [a - b] in doubles, never puts a smaller time
    after a greater one, and orders a click and a shot that fails the test as
    they are. *)
Lemma not_after (x y : Q) : x <= y -> Qltb 0 (fsub x y) = false.
Proof.
  intro Hxy. apply Qltb_ge. unfold fsub.
  assert (Hz : double 0 = 0) by (apply double_zero; reflexivity).
  rewrite <- Hz. apply double_mono. lra.
Qed.

Lemma after_click (t y : Q) : ~ within t y -> t < y -> Qltb 0 (fsub y t) = true.
Proof.
  intros Hout Hlt. apply Qltb_lt. unfold within, Math_abs, fsub in *.
  assert (Hz : double 0 = 0) by (apply double_zero; reflexivity).
  assert (Hpos : double 0 <= double (y - t)) by (apply double_mono; lra).
  rewrite Hz in Hpos. pose proof tolerance_value as Htol.
  apply Qnot_lt_le in Hout. rewrite Qabs_pos in Hout by exact Hpos. lra.
Qed.

Lemma after_shot (t y : Q) : ~ within t y -> y < t -> Qltb 0 (fsub t y) = true.
Proof.
  intros Hout Hlt. apply after_click; [|exact Hlt].
  intro Hw. apply Hout. apply within_sym. exact Hw.
Qed.

(** ** Arrays *)

Lemma findIndex_None {A : Type} (p : A -> bool) (l : list A) :
  findIndex p l = None <-> Forall (fun x => p x = false) l.
Proof.
  induction l as [|x l IH]; simpl.
  - split; [constructor | reflexivity].
  - destruct (p x) eqn:Hx.
    + split; [discriminate|]. intro Hall. inversion Hall; congruence.
    + destruct (findIndex p l); simpl.
      * split; [discriminate|]. intro Hall.
        apply Forall_inv_tail in Hall. apply IH in Hall. discriminate.
      * split; [|reflexivity]. intros _. constructor; [exact Hx|].
        apply IH. reflexivity.
Qed.

Lemma findIndex_Some {A : Type} (p : A -> bool) (l : list A) (i : nat) :
  findIndex p l = Some i ->
  exists l1 x l2, l = l1 ++ x :: l2 /\ length l1 = i /\ p x = true
                  /\ Forall (fun y => p y = false) l1.
Proof.
  revert i. induction l as [|y l IH]; simpl; intros i Hi; [discriminate|].
  destruct (p y) eqn:Hy.
  - inversion Hi; subst. exists [], y, l. repeat split; auto.
  - destruct (findIndex p l) as [j|] eqn:Hj; simpl in Hi; [|discriminate].
    inversion Hi; subst.
    destruct (IH j eq_refl) as (l1 & x & l2 & -> & Hlen & Hx & Hall).
    exists (y :: l1), x, l2. simpl. repeat split; auto.
Qed.

Lemma findIndex_first {A : Type} (p : A -> bool) (l1 l2 : list A) (x : A) :
  Forall (fun y => p y = false) l1 -> p x = true ->
  findIndex p (l1 ++ x :: l2) = Some (length l1).
Proof.
  intros Hall Hx. induction Hall as [|y l1 Hy _ IH]; simpl.
  - rewrite Hx. reflexivity.
  - rewrite Hy, IH. reflexivity.
Qed.

Lemma splice1_middle {A : Type} (l1 l2 : list A) (x : A) :
  splice1 (length l1) (l1 ++ x :: l2) = l1 ++ l2.
Proof.
  unfold splice1. rewrite firstn_app, Nat.sub_diag, firstn_all. simpl.
  rewrite app_nil_r. f_equal.
  induction l1 as [|y l1 IH]; simpl; [reflexivity|exact IH].
Qed.

(** The test of [findIndex] in [onPeakToggle], over a whole list. *)
Lemma outside_all (t : Q) (l : list Q) :
  Forall (fun y => ~ within t y) l <->
  Forall (fun y => Qltb (Math_abs (fsub y t)) tolerance = false) l.
Proof.
  rewrite !Forall_forall. split; intros Hall y Hy.
  - apply outside_test. exact (Hall y Hy).
  - apply outside_test. exact (Hall y Hy).
Qed.

(** ** Sorting shot times *)

Lemma insert_front (x : Q) (l : list Q) :
  (forall y, hd_error l = Some y -> x <= y) ->
  insert (fun a b => fsub a b) x l = x :: l.
Proof.
  destruct l as [|y l]; simpl; intro Hhd; [reflexivity|].
  rewrite not_after; auto.
Qed.

Lemma increasing_cons (x : Q) (l : list Q) :
  increasing (x :: l) <-> increasing l /\ Forall (Qlt x) l.
Proof.
  split.
  - apply StronglySorted_inv.
  - intros [Hl Hx]. constructor; assumption.
Qed.

(** Sorting leaves increasing times as they are. *)
Lemma sort_increasing (l : list Q) :
  increasing l -> sort (fun a b => fsub a b) l = l.
Proof.
  induction l as [|x l IH]; intro Hinc; [reflexivity|].
  apply increasing_cons in Hinc. destruct Hinc as [Hl Hx].
  simpl. rewrite (IH Hl). apply insert_front.
  intros y Hy. destruct l; inversion Hy; subst.
  apply Qlt_le_weak. apply (Forall_inv Hx).
Qed.

Lemma sorted_without {A : Type} (R : A -> A -> Prop) (l1 l2 : list A) (x : A) :
  StronglySorted R (l1 ++ x :: l2) -> StronglySorted R (l1 ++ l2).
Proof.
  induction l1 as [|a l1 IH]; simpl; intro Hs.
  - apply StronglySorted_inv in Hs. tauto.
  - apply StronglySorted_inv in Hs. destruct Hs as [Hl Ha].
    constructor; [auto|].
    apply Forall_app in Ha. destruct Ha as [H1 H2].
    apply Forall_app. split; [exact H1|]. apply (Forall_inv_tail H2).
Qed.

Lemma sorted_with {A : Type} (R : A -> A -> Prop) (l1 l2 : list A) (t : A) :
  StronglySorted R (l1 ++ l2) ->
  Forall (fun x => R x t) l1 -> Forall (R t) l2 ->
  StronglySorted R (l1 ++ t :: l2).
Proof.
  induction l1 as [|a l1 IH]; simpl; intros Hs H1 H2.
  - constructor; assumption.
  - apply StronglySorted_inv in Hs. destruct Hs as [Hl Ha].
    constructor.
    + apply IH; [exact Hl | exact (Forall_inv_tail H1) | exact H2].
    + apply Forall_app in Ha. destruct Ha as [Ha1 Ha2].
      apply Forall_app. split; [exact Ha1|].
      constructor; [exact (Forall_inv H1) | exact Ha2].
Qed.

Lemma sorted_before {A : Type} (R : A -> A -> Prop) (l1 l2 : list A) (x : A) :
  StronglySorted R (l1 ++ x :: l2) ->
  Forall (fun y => R y x) l1 /\ Forall (R x) l2.
Proof.
  induction l1 as [|a l1 IH]; simpl; intro Hs.
  - apply StronglySorted_inv in Hs. split; [constructor | tauto].
  - apply StronglySorted_inv in Hs. destruct Hs as [Hl Ha].
    destruct (IH Hl) as [H1 H2]. split; [|exact H2].
    constructor; [|exact H1].
    apply Forall_app in Ha. destruct Ha as [_ Ha]. exact (Forall_inv Ha).
Qed.

Lemma increasing_without (l1 l2 : list Q) (x : Q) :
  increasing (l1 ++ x :: l2) -> increasing (l1 ++ l2).
Proof. apply sorted_without. Qed.

Lemma increasing_with (l1 l2 : list Q) (t : Q) :
  increasing (l1 ++ l2) ->
  Forall (fun x => x < t) l1 -> Forall (fun x => t < x) l2 ->
  increasing (l1 ++ t :: l2).
Proof. apply sorted_with. Qed.

(** Sorting after a push puts a click that no shot is within the tolerance of
    at its place among the shots. *)
Lemma sort_push (S : list Q) (t : Q) :
  increasing S -> Forall (fun x => ~ within t x) S ->
  exists l1 l2,
    S = l1 ++ l2 /\ sort (fun a b => fsub a b) (push S t) = l1 ++ t :: l2
    /\ Forall (fun x => x < t) l1 /\ Forall (fun x => t < x) l2.
Proof.
  unfold push. induction S as [|y S IH]; intros Hinc Hout.
  - exists [], []. simpl. repeat split; constructor.
  - apply increasing_cons in Hinc. destruct Hinc as [HS Hy].
    destruct (IH HS (Forall_inv_tail Hout)) as (l1 & l2 & -> & Hsort & H1 & H2).
    pose proof (Forall_inv Hout) as Hyt. cbv beta in Hyt.
    simpl. rewrite Hsort.
    destruct (Qlt_le_dec t y) as [Hty | Hge].
    + destruct l1 as [|a l1].
      * exists [], (y :: l2). simpl. rewrite (after_click t y Hyt Hty).
        rewrite insert_front.
        -- repeat split; [constructor|]. constructor; [exact Hty | exact H2].
        -- intros z Hz. destruct l2; inversion Hz; subst.
           apply Qlt_le_weak. apply (Forall_inv Hy).
      * exfalso. pose proof (Forall_inv H1) as Hat.
        pose proof (Forall_inv Hy) as Hya. simpl in Hat, Hya. lra.
    + assert (Hlt : y < t).
      { destruct (Qlt_le_dec y t) as [Hlt | Hge']; [exact Hlt|].
        exfalso. apply (outside_apart t y Hyt). lra. }
      exists (y :: l1), l2. rewrite insert_front.
      * repeat split; [constructor; assumption | exact H2].
      * intros z Hz. destruct l1 as [|a l1]; simpl in Hz; inversion Hz; subst.
        -- exact Hge.
        -- apply Qlt_le_weak. apply (Forall_inv Hy).
Qed.

Lemma peaksOf_sorted (rate : Q) (ts : list Q) :
  0 <= rate -> increasing ts -> Sorted Z.le (peaksOf rate ts).
Proof.
  intros Hrate Hinc. induction ts as [|t ts IH]; simpl; [constructor|].
  apply increasing_cons in Hinc. destruct Hinc as [Hts Ht].
  constructor; [auto|].
  destruct ts as [|u ts]; simpl; constructor.
  apply Math_round_mono. apply double_mono.
  pose proof (Forall_inv Ht) as Htu. simpl in Htu. nra.
Qed.

Lemma insert_In (x y : Q) (l : list Q) :
  In y (insert (fun a b => fsub a b) x l) <-> y = x \/ In y l.
Proof.
  induction l as [|z l IH]; simpl.
  - intuition congruence.
  - destruct (Qltb 0 (fsub x z)); simpl; [rewrite IH|]; intuition congruence.
Qed.

Lemma sort_In (y : Q) (l : list Q) :
  In y (sort (fun a b => fsub a b) l) <-> In y l.
Proof.
  induction l as [|x l IH]; simpl; [tauto|].
  rewrite insert_In, IH. intuition congruence.
Qed.

Lemma insert_length (x : Q) (l : list Q) :
  length (insert (fun a b => fsub a b) x l) = S (length l).
Proof.
  induction l as [|z l IH]; simpl; [reflexivity|].
  destruct (Qltb 0 (fsub x z)); simpl; [rewrite IH|]; reflexivity.
Qed.

Lemma sort_length (l : list Q) :
  length (sort (fun a b => fsub a b) l) = length l.
Proof.
  induction l as [|x l IH]; simpl; [reflexivity|].
  rewrite insert_length, IH. reflexivity.
Qed.

(** ** The edit of the shot times *)

(** The two branches of [onPeakToggle], on any shot times. *)
Lemma edit_cases (S : list Q) (t : Q) :
  (exists l1 x l2,
      S = l1 ++ x :: l2 /\ within t x
      /\ Forall (fun y => ~ within t y) l1
      /\ editedTimes t S = sort (fun a b => fsub a b) (l1 ++ l2))
  \/ (Forall (fun y => ~ within t y) S
      /\ editedTimes t S = sort (fun a b => fsub a b) (push S t)).
Proof.
  unfold editedTimes.
  destruct (findIndex _ S) as [i|] eqn:Hfind.
  - left. apply findIndex_Some in Hfind.
    destruct Hfind as (l1 & x & l2 & -> & <- & Hx & Hall).
    exists l1, x, l2. split; [reflexivity|].
    split; [apply within_test; exact Hx|].
    split; [apply outside_all; exact Hall|].
    rewrite splice1_middle. reflexivity.
  - right. apply findIndex_None in Hfind.
    split; [apply outside_all; exact Hfind | reflexivity].
Qed.

(** What [onPeakToggle] does to strictly increasing shot times: either the
    first shot that passes the tolerance test goes, or the clicked time comes
    in at its place. *)
Lemma edit_increasing (S : list Q) (t : Q) :
  increasing S ->
  (exists l1 x l2,
      S = l1 ++ x :: l2 /\ within t x
      /\ Forall (fun y => ~ within t y) l1 /\ editedTimes t S = l1 ++ l2)
  \/ (Forall (fun y => ~ within t y) S
      /\ exists l1 l2,
          S = l1 ++ l2 /\ editedTimes t S = l1 ++ t :: l2
          /\ Forall (fun y => y < t) l1 /\ Forall (fun y => t < y) l2).
Proof.
  intros Hinc.
  destruct (edit_cases S t)
    as [(l1 & x & l2 & HS & Hx & Hall & Hts) | (Hout & Hts)].
  - left. exists l1, x, l2. repeat split; try assumption.
    rewrite Hts. apply sort_increasing. rewrite HS in Hinc.
    apply (increasing_without _ _ _ Hinc).
  - right. split; [exact Hout|]. rewrite Hts.
    apply sort_push; assumption.
Qed.

Lemma edit_keeps_increasing (S : list Q) (t : Q) :
  increasing S -> increasing (editedTimes t S).
Proof.
  intro Hinc.
  destruct (edit_increasing S t Hinc)
    as [(l1 & x & l2 & HS & _ & _ & ->) | (_ & l1 & l2 & HS & -> & H1 & H2)].
  - rewrite HS in Hinc. apply (increasing_without _ _ _ Hinc).
  - rewrite HS in Hinc. apply increasing_with; assumption.
Qed.


Lemma edit_length (S : list Q) (t : Q) :
  (Exists (within t) S /\ Datatypes.S (length (editedTimes t S)) = length S)
  \/ (Forall (fun x => ~ within t x) S
      /\ length (editedTimes t S) = Datatypes.S (length S)).
Proof.
  destruct (edit_cases S t)
    as [(l1 & x & l2 & HS & Hx & _ & ->) | (Hout & ->)]; rewrite sort_length.
  - left. split.
    + apply Exists_exists. exists x. split; [rewrite HS; apply in_elt | exact Hx].
    + rewrite HS, !length_app. simpl. lia.
  - right. split; [exact Hout|]. unfold push. rewrite length_app. simpl. lia.
Qed.

(** The edit when the shot [x] is the first that passes the test for [t]. *)
Lemma edit_removes (l1 l2 : list Q) (x t : Q) :
  increasing (l1 ++ x :: l2) -> within t x ->
  Forall (fun y => ~ within t y) l1 ->
  editedTimes t (l1 ++ x :: l2) = l1 ++ l2.
Proof.
  intros Hinc Hx Hout. unfold editedTimes.
  rewrite findIndex_first.
  - rewrite splice1_middle. apply sort_increasing.
    apply (increasing_without _ _ _ Hinc).
  - apply outside_all. exact Hout.
  - apply within_test. exact Hx.
Qed.

(** The edit when no shot passes the test for [t]. *)
Lemma edit_adds (l1 l2 : list Q) (t : Q) :
  increasing (l1 ++ l2) -> Forall (fun y => ~ within t y) (l1 ++ l2) ->
  Forall (fun y => y < t) l1 -> Forall (fun y => t < y) l2 ->
  editedTimes t (l1 ++ l2) = l1 ++ t :: l2.
Proof.
  intros Hinc Hout H1 H2.
  destruct (edit_increasing (l1 ++ l2) t Hinc)
    as [(k1 & x & k2 & HS & Hx & _ & _) | (_ & k1 & k2 & HS & Hts & Hk1 & Hk2)].
  - exfalso. rewrite HS in Hout. apply Forall_elt in Hout. exact (Hout Hx).
  - rewrite Hts. clear Hts Hinc Hout.
    revert k1 HS Hk1. induction l1 as [|a l1 IH]; intros [|b k1] HS Hk1.
    + simpl in HS. subst l2. reflexivity.
    + exfalso. simpl in HS. subst l2.
      pose proof (Forall_inv H2) as Ha. pose proof (Forall_inv Hk1) as Hb.
      simpl in Ha, Hb. lra.
    + exfalso. simpl in HS. subst k2.
      pose proof (Forall_inv Hk2) as Ha. pose proof (Forall_inv H1) as Hb.
      simpl in Ha, Hb. lra.
    + simpl in HS. inversion HS; subst b. simpl. f_equal.
      apply IH; [exact (Forall_inv_tail H1) | assumption
                | exact (Forall_inv_tail Hk1)].
Qed.

(** ** Sample indices of the edited shot times *)



Lemma near_inside (t x : Q) : Qabs (x - t) <= belowTolerance -> within t x.
Proof.
  intro Hnear. destruct (within_dec t x) as [Hw | Hout]; [exact Hw|].
  exfalso. apply outside_far in Hout. lra.
Qed.

(** A product of magnitude up to [2 ^ 50] is rounded with an error of at most
    a quarter. *)
Lemma fmul_error (x rate : Q) :
  Qabs (x * rate) <= 2 ^ 50 -> Qabs (fmul x rate - x * rate) <= 1#4.
Proof.
  intro Hbound. unfold fmul.
  eapply Qle_trans; [apply double_error|].
  assert (Hmul : Qabs (x * rate) * 2 ^ (-53) <= 2 ^ 50 * 2 ^ (-53)).
  { apply Qmult_le_compat_r; [exact Hbound|]. apply Qlt_le_weak, pow2_pos. }
  assert (H1 : 2 ^ 50 * 2 ^ (-53) == 1#8) by (vm_compute; reflexivity).
  assert (H2 : 2 ^ (-1075) <= 1#8) by (vm_compute; discriminate).
  lra.
Qed.





Section Editing.

Context `{Platform}.

(** The session that [onPeakToggle] leaves when an analysis is loaded. *)
Lemma onPeakToggle_run (s : Session) (d : Detector) (cur : Results) (t : Q) :
  detector s = Some d -> currentResults s = Some cur ->
  let ts := editedTimes t (shotTimes d) in
  let d2 := groupIntoBursts
              (mkDetector (params d) (sampleRate d) (audioData d) ts (bursts d)) in
  let res := mkResults (generateSummary (calculateRates d2)) (calculateRates d2)
               (peaksOf (sampleRate d) ts) (audioDuration cur) in
  onPeakToggle t s =
  mkSession (inputs s) (buildNotes s) (Some d2) (Some res)
    (option_map (fun old => redraw old d2 res) (visualizer s))
    (currentFile s) (Some (displayROFResults (buildNotes s) d2 res))
    (errorDiv s) (resultsActive s).
Proof.
  intros Hd Hc. unfold onPeakToggle. rewrite Hd, Hc. reflexivity.
Qed.


(** C3.  On a ShotSet with no shot within the tolerance of [t], the first click
    at [t] adds the shot and a second click at [t] removes it again: the shot
    times, and the sample indices derived from them, are those of the start. *)
Theorem toggle_twice_restores (s : Session) (d : Detector) (cur : Results)
    (t : Q) :
  detector s = Some d -> currentResults s = Some cur ->
  increasing (shotTimes d) ->
  Forall (fun x => ~ within t x) (shotTimes d) ->
  exists d1 d2 res2,
    detector (onPeakToggle t s) = Some d1
    /\ In t (shotTimes d1)
    /\ length (shotTimes d1) = S (length (shotTimes d))
    /\ detector (onPeakToggle t (onPeakToggle t s)) = Some d2
    /\ currentResults (onPeakToggle t (onPeakToggle t s)) = Some res2
    /\ shotTimes d2 = shotTimes d
    /\ peaks res2 = peaksOf (sampleRate d) (shotTimes d).
Proof.
  intros Hd Hc Hinc Hout.
  pose proof (onPeakToggle_run s d cur t Hd Hc) as Hrun. cbv zeta in Hrun.
  set (s1 := onPeakToggle t s) in *.
  destruct (edit_increasing (shotTimes d) t Hinc)
    as [(l1 & x & l2 & HS & Hx & _ & _)
       | (_ & l1 & l2 & HS & Hts & H1 & H2)].
  { exfalso. rewrite HS in Hout. apply Forall_elt in Hout. exact (Hout Hx). }
  rewrite Hts in Hrun.
  assert (Hd1 : detector s1 = Some (groupIntoBursts
            (mkDetector (params d) (sampleRate d) (audioData d)
               (l1 ++ t :: l2) (bursts d)))) by (rewrite Hrun; reflexivity).
  assert (Hc1 : exists c1, currentResults s1 = Some c1)
    by (rewrite Hrun; eexists; reflexivity).
  destruct Hc1 as [c1 Hc1].
  pose proof (onPeakToggle_run s1 _ c1 t Hd1 Hc1) as Hrun2. cbv zeta in Hrun2.
  cbn [shotTimes groupIntoBursts params sampleRate audioData] in Hrun2.
  assert (Hinc1 : increasing (l1 ++ t :: l2)).
  { apply increasing_with; [rewrite <- HS; exact Hinc | exact H1 | exact H2]. }
  assert (Hback : editedTimes t (l1 ++ t :: l2) = l1 ++ l2).
  { apply edit_removes; [exact Hinc1 | apply within_self|].
    rewrite HS in Hout. apply Forall_app in Hout. tauto. }
  rewrite Hback, <- HS in Hrun2.
  eexists. eexists. eexists.
  split; [exact Hd1|]. cbn [shotTimes groupIntoBursts].
  split; [apply in_elt|].
  split; [rewrite HS, !length_app; simpl; lia|].
  rewrite Hrun2. cbn [detector currentResults shotTimes groupIntoBursts peaks].
  repeat split; reflexivity.
Qed.

(** C10.  The tolerance is the constant [0.01] and the test is strict.  A shot
    whose distance to the click, as the code computes it, is exactly [0.01] stays,
    and when no shot passes the test the clicked time is added as a new shot.
    When some shot passes it, the first such shot is removed and nothing is
    added.  The constant is pinned from both sides: a shot whose distance to the
    click is at most the double below [0.01] is removed, one at 1/100 s or more
    is not.  The edited shot times depend on the shot times and the click alone,
    whatever the settings and the sample rate. *)
Theorem tolerance_is_fixed_and_strict (s : Session) (d : Detector)
    (cur : Results) (t x : Q) :
  detector s = Some d -> currentResults s = Some cur ->
  In x (shotTimes d) -> Math_abs (fsub x t) == tolerance ->
  exists d',
    detector (onPeakToggle t s) = Some d'
    /\ ~ within t x
    /\ In x (shotTimes d')
    /\ (Forall (fun y => ~ within t y) (shotTimes d) ->
        In t (shotTimes d')
        /\ length (shotTimes d') = S (length (shotTimes d)))
    /\ (Exists (within t) (shotTimes d) ->
        S (length (shotTimes d')) = length (shotTimes d)
        /\ exists l1 y l2,
             shotTimes d = l1 ++ y :: l2 /\ within t y
             /\ Forall (fun z => ~ within t z) l1
             /\ forall z, In z (shotTimes d') <-> In z (l1 ++ l2))
    /\ (forall y, Qabs (y - t) <= belowTolerance -> within t y)
    /\ (forall y, 1#100 <= Qabs (y - t) -> ~ within t y)
    /\ (forall (s2 : Session) (d2 : Detector) (cur2 : Results),
          detector s2 = Some d2 -> currentResults s2 = Some cur2 ->
          shotTimes d2 = shotTimes d ->
          exists d2', detector (onPeakToggle t s2) = Some d2'
                      /\ shotTimes d2' = shotTimes d').
Proof.
  intros Hd Hc Hx Hdist. rewrite (onPeakToggle_run s d cur t Hd Hc).
  eexists. split; [reflexivity|]. cbn [shotTimes groupIntoBursts].
  assert (Hnot : ~ within t x).
  { unfold within. rewrite Hdist. apply Qlt_irrefl. }
  split; [exact Hnot|].
  split; [|split; [|split; [|split; [|split]]]].
  - destruct (edit_cases (shotTimes d) t)
      as [(l1 & y & l2 & HS & Hy & _ & ->) | (_ & ->)]; rewrite sort_In.
    + rewrite HS in Hx. apply in_app_iff in Hx. apply in_app_iff.
      destruct Hx as [Hx | [Hx | Hx]]; [left; exact Hx | | right; exact Hx].
      subst y. contradiction.
    + unfold push. apply in_app_iff. left. exact Hx.
  - intro Hout.
    destruct (edit_cases (shotTimes d) t)
      as [(l1 & y & l2 & HS & Hy & _ & _) | (_ & ->)].
    + exfalso. rewrite HS in Hout. apply Forall_elt in Hout. exact (Hout Hy).
    + split.
      * apply sort_In. unfold push. apply in_app_iff. right. left. reflexivity.
      * rewrite sort_length. unfold push. rewrite length_app. simpl. lia.
  - intro Hsome.
    destruct (edit_cases (shotTimes d) t)
      as [(l1 & y & l2 & HS & Hy & Hall & ->) | (Hout & _)].
    + split.
      * rewrite sort_length, HS, !length_app. simpl. lia.
      * exists l1, y, l2. repeat split; try assumption; apply sort_In.
    + exfalso. apply Exists_exists in Hsome. destruct Hsome as (y & Hy & Hw).
      rewrite Forall_forall in Hout. exact (Hout y Hy Hw).
  - intro y. apply near_inside.
  - intro y. apply far_outside.
  - intros s2 d2 cur2 Hd2 Hc2 Hsame.
    rewrite (onPeakToggle_run s2 d2 cur2 t Hd2 Hc2).
    eexists. split; [reflexivity|]. cbn [shotTimes groupIntoBursts].
    rewrite Hsame. reflexivity.
Qed.



(** C7.  A click re-runs [groupIntoBursts], [calculateRates] and
    [generateSummary] on the detector that holds the edited shot times: the
    shot times it stores are those of the start without the first shot that
    passes the tolerance test or, when none does, with the clicked time, and
    the new Burst list, Summary and sample indices are exactly the results of
    the three calls on them.  They replace the old ones in one assignment, and
    two sessions with the same settings and shot times get the same Burst list
    and Summary whatever bursts and results they held before. *)
Theorem toggle_recomputes_bursts_and_summary (s : Session) (d : Detector)
    (cur : Results) (t : Q) :
  detector s = Some d -> currentResults s = Some cur ->
  exists d' res',
    detector (onPeakToggle t s) = Some d'
    /\ currentResults (onPeakToggle t s) = Some res'
    /\ ((exists l1 x l2,
            shotTimes d = l1 ++ x :: l2 /\ within t x
            /\ Forall (fun y => ~ within t y) l1
            /\ S (length (shotTimes d')) = length (shotTimes d)
            /\ forall y, In y (shotTimes d') <-> In y (l1 ++ l2))
        \/ (Forall (fun y => ~ within t y) (shotTimes d)
            /\ length (shotTimes d') = S (length (shotTimes d))
            /\ forall y, In y (shotTimes d') <-> In y (shotTimes d) \/ y = t))
    /\ (increasing (shotTimes d) -> increasing (shotTimes d'))
    /\ d' = groupIntoBursts
              (mkDetector (params d) (sampleRate d) (audioData d) (shotTimes d') [])
    /\ resBursts res' = calculateRates d'
    /\ summary res' = generateSummary (calculateRates d')
    /\ peaks res' = peaksOf (sampleRate d) (shotTimes d')
    /\ rofDisplay (onPeakToggle t s) = Some (displayROFResults (buildNotes s) d' res')
    /\ (forall (s2 : Session) (d2 : Detector) (cur2 : Results),
          detector s2 = Some d2 -> currentResults s2 = Some cur2 ->
          params d2 = params d -> shotTimes d2 = shotTimes d ->
          exists d2' r2,
            detector (onPeakToggle t s2) = Some d2'
            /\ currentResults (onPeakToggle t s2) = Some r2
            /\ shotTimes d2' = shotTimes d'
            /\ bursts d2' = bursts d'
            /\ resBursts r2 = resBursts res'
            /\ summary r2 = summary res').
Proof.
  intros Hd Hc. rewrite (onPeakToggle_run s d cur t Hd Hc).
  eexists. eexists. split; [reflexivity|]. split; [reflexivity|].
  cbn [shotTimes groupIntoBursts].
  split.
  { destruct (edit_cases (shotTimes d) t)
      as [(l1 & x & l2 & HS & Hx & Hall & ->) | (Hout & ->)].
    - left. exists l1, x, l2. repeat split; try assumption.
      + rewrite sort_length, HS, !length_app. simpl. lia.
      + apply sort_In.
      + apply sort_In.
    - right. split; [exact Hout|]. split.
      + rewrite sort_length. unfold push. rewrite length_app. simpl. lia.
      + intro y. rewrite sort_In. unfold push. rewrite in_app_iff. simpl.
        intuition congruence. }
  split; [apply edit_keeps_increasing|].
  split; [reflexivity|]. split; [reflexivity|]. split; [reflexivity|].
  split; [reflexivity|]. split; [reflexivity|].
  intros s2 d2 cur2 Hd2 Hc2 Hp Hts.
  rewrite (onPeakToggle_run s2 d2 cur2 t Hd2 Hc2).
  eexists. eexists. split; [reflexivity|]. split; [reflexivity|].
  cbn [resBursts summary shotTimes bursts]. unfold calculateRates, groupIntoBursts.
  cbn [bursts params shotTimes]. rewrite Hp, Hts. repeat split; reflexivity.
Qed.

End Editing.

(** ** Segmentation *)

Lemma groupByGap_step (gap t u : Q) (rest : list Q) :
  groupByGap gap (t :: u :: rest) =
  match groupByGap gap (u :: rest) with
  | g :: gs => if Qltb gap (u - t) then [t] :: g :: gs else (t :: g) :: gs
  | [] => [[t]]
  end.
Proof. reflexivity. Qed.

Lemma groupByGap_concat (gap : Q) (ts : list Q) :
  concat (groupByGap gap ts) = ts.
Proof.
  induction ts as [|t rest IH]; [reflexivity|].
  destruct rest as [|u rest]; [reflexivity|].
  rewrite groupByGap_step.
  destruct (groupByGap gap (u :: rest)) as [|g gs]; [discriminate IH|].
  destruct (Qltb gap (u - t)); simpl in *; rewrite IH; reflexivity.
Qed.

Lemma groupByGap_increasing (gap : Q) (ts : list Q) :
  increasing ts -> Forall increasing (groupByGap gap ts).
Proof.
  induction ts as [|t rest IH]; intro Hinc; [constructor|].
  destruct rest as [|u rest].
  - simpl. constructor; [exact Hinc | constructor].
  - apply increasing_cons in Hinc. destruct Hinc as [Hrest Ht].
    specialize (IH Hrest). rewrite groupByGap_step.
    pose proof (groupByGap_concat gap (u :: rest)) as Hcat.
    destruct (groupByGap gap (u :: rest)) as [|g gs]; [discriminate Hcat|].
    destruct (Qltb gap (u - t)).
    + constructor; [|exact IH]. constructor; constructor.
    + constructor; [|exact (Forall_inv_tail IH)].
      apply increasing_cons. split; [exact (Forall_inv IH)|].
      simpl in Hcat. rewrite <- Hcat in Ht. apply Forall_app in Ht. tauto.
Qed.

(** ** Statistics *)

Lemma ofNat_pos (n : nat) : (0 < n)%nat -> 0 < ofNat n.
Proof.
  intro Hn. unfold ofNat. change 0 with (inject_Z 0).
  rewrite <- Zlt_Qlt. lia.
Qed.


Lemma guarded_zero (a b : Q) : b == 0 -> guarded a b = Some 0.
Proof.
  intro Hb. unfold guarded. apply Qeq_bool_iff in Hb. rewrite Hb. reflexivity.
Qed.





Section Cadence.

Context `{Platform}.








End Cadence.

(** ** Running an analysis *)

Lemma inRange_iff (lo hi x : Q) : inRange lo hi x = true <-> lo <= x <= hi.
Proof.
  unfold inRange. rewrite andb_true_iff, !Qle_bool_iff. tauto.
Qed.

Lemma validParams_iff (i : Inputs) :
  validParams (paramsOf i) = true <-> ~ outOfRange i.
Proof.
  unfold validParams, outOfRange, paramsOf.
  cbn [peakThresholdStd minShotSpacing burstGapThreshold windowSize
       minPeakProminence minBurstCount].
  rewrite !andb_true_iff, !inRange_iff, !Z.leb_le.
  assert (Hq : forall lo hi x : Q, lo <= x <= hi \/ ~ lo <= x <= hi).
  { intros lo hi x. destruct (Qlt_le_dec x lo) as [Hlo | Hlo].
    - right. intros [Ha _]. exact (Qlt_not_le _ _ Hlo Ha).
    - destruct (Qlt_le_dec hi x) as [Hhi | Hhi].
      + right. intros [_ Hb]. exact (Qlt_not_le _ _ Hhi Hb).
      + left. split; assumption. }
  split.
  - intros [[[[[[H1 H2] H3] H4] H5] H6] H7] Hout.
    destruct Hout as [N | [N | [N | [N | [N | N]]]]]; apply N;
      first [assumption | split; assumption].
  - intro Hno.
    assert (R1 : 1#10 <= peakThresholdInput i <= 5).
    { destruct (Hq (1#10) 5 (peakThresholdInput i)) as [Hy | Hn]; [exact Hy|].
      exfalso. apply Hno. left. exact Hn. }
    assert (R2 : 1#100 <= minShotSpacingInput i <= 1).
    { destruct (Hq (1#100) 1 (minShotSpacingInput i)) as [Hy | Hn]; [exact Hy|].
      exfalso. apply Hno. right; left. exact Hn. }
    assert (R3 : 5#100 <= burstGapThresholdInput i <= 2).
    { destruct (Hq (5#100) 2 (burstGapThresholdInput i)) as [Hy | Hn]; [exact Hy|].
      exfalso. apply Hno. do 2 right; left. exact Hn. }
    assert (R4 : 1#1000 <= windowSizeInput i <= 1#100).
    { destruct (Hq (1#1000) (1#100) (windowSizeInput i)) as [Hy | Hn]; [exact Hy|].
      exfalso. apply Hno. do 3 right; left. exact Hn. }
    assert (R5 : 1#100 <= minPeakProminenceInput i <= 1).
    { destruct (Hq (1#100) 1 (minPeakProminenceInput i)) as [Hy | Hn]; [exact Hy|].
      exfalso. apply Hno. do 4 right; left. exact Hn. }
    assert (R6 : (1 <= minBurstCountInput i <= 50)%Z).
    { destruct (Z_le_gt_dec 1 (minBurstCountInput i)) as [Hy | Hn];
        [destruct (Z_le_gt_dec (minBurstCountInput i) 50) as [Hz | Hn]|].
      - split; assumption.
      - exfalso. apply Hno. do 5 right. lia.
      - exfalso. apply Hno. do 5 right. lia. }
    destruct R1, R2, R3, R4, R5, R6. repeat split; assumption.
Qed.

Lemma traverse_total {A B : Type} (f : A -> option B) (l : list A) :
  Forall (fun x => f x <> None) l -> traverse f l <> None.
Proof.
  induction l as [|x l IH]; intro Hall; simpl; [discriminate|].
  pose proof (Forall_inv Hall) as Hx. simpl in Hx.
  specialize (IH (Forall_inv_tail Hall)).
  destruct (f x); [|congruence]. destruct (traverse f l); congruence.
Qed.


Section Analysis.

Context `{Platform}.

Lemma analyzeRateOfFire_rejects (file : File) (s : Session) :
  outOfRange (inputs s) ->
  analyzeRateOfFire file s = (s, Some InvalidConfiguration).
Proof.
  intro Hout. unfold analyzeRateOfFire, newRateOfFireDetector.
  fold (paramsOf (inputs s)).
  destruct (validParams (paramsOf (inputs s))) eqn:Hv; [|reflexivity].
  apply validParams_iff in Hv. contradiction.
Qed.

(** C4.  When an input lies outside its range the constructor of the detector
    rejects the configuration: [analyzeRateOfFire] throws
    [InvalidConfiguration] and leaves the session as it was, nothing having
    been decoded or computed; [handleFile] and the scheduled re-analysis show
    the error, the first with no detector and no results, the second with
    those it had. *)
Theorem invalid_configuration_is_surfaced (file : File) (s : Session) :
  outOfRange (inputs s) ->
  analyzeRateOfFire file s = (s, Some InvalidConfiguration)
  /\ errorDiv (handleFile (Some file) s)
     = Some ("Error analyzing file: "%string, InvalidConfiguration)
  /\ detector (handleFile (Some file) s) = None
  /\ currentResults (handleFile (Some file) s) = None
  /\ (currentFile s = Some file ->
      errorDiv (reanalyze s)
      = Some ("Error re-analyzing: "%string, InvalidConfiguration)
      /\ detector (reanalyze s) = detector s
      /\ currentResults (reanalyze s) = currentResults s).
Proof.
  intro Hout. split; [apply analyzeRateOfFire_rejects; exact Hout|].
  unfold handleFile, reanalyze.
  rewrite analyzeRateOfFire_rejects by exact Hout.
  split; [reflexivity|]. split; [reflexivity|]. split; [reflexivity|].
  intro Hfile. rewrite Hfile.
  rewrite analyzeRateOfFire_rejects by exact Hout.
  split; [reflexivity|]. split; reflexivity.
Qed.

Lemma render_draws (d : Detector) (results : Results) :
  (length (bursts d) <= length (resBursts results))%nat ->
  render d results <> None.
Proof.
  intro Hlen. unfold render.
  match goal with
  | |- context [traverse ?f ?l] =>
      assert (Hsome : traverse f l <> None); [|destruct (traverse f l)]
  end.
  - apply traverse_total. apply Forall_forall. intros i Hi.
    apply in_seq in Hi.
    destruct (nth_error (resBursts results) i) eqn:E; [discriminate|].
    apply nth_error_None in E. lia.
  - discriminate.
  - congruence.
Qed.



End Analysis.

(** ** Downsampling *)

Lemma strided_from_zero (len step : nat) :
  strided len step =
  map (fun k => (0 + k * step)%nat) (seq 0 ((len - 0 + step - 1) / step)).
Proof.
  unfold strided. rewrite Nat.sub_0_r. reflexivity.
Qed.

Lemma strided_below (len step : nat) :
  (1 <= step)%nat -> Forall (fun i => (i < len)%nat) (strided len step).
Proof.
  intro Hstep. unfold strided. apply Forall_map. apply Forall_forall.
  intros k Hk. apply in_seq in Hk.
  pose proof (Nat.Div0.mul_div_le (len + step - 1) step) as Hq. nia.
Qed.

Lemma downsampleLoop_spec {A B : Type} (data : list A) (timeArray : list B)
    (step : nat) :
  (1 <= step)%nat ->
  forall fuel i : nat,
    (length data - i <= fuel)%nat ->
    let idxs := map (fun k => (i + k * step)%nat)
                  (seq 0 ((length data - i + step - 1) / step)) in
    map Some (fst (downsampleLoop fuel data timeArray step i))
    = map (nth_error data) idxs
    /\ snd (downsampleLoop fuel data timeArray step i)
       = map (nth_error timeArray) idxs.
Proof.
  intros Hstep fuel.
  assert (Hnone : forall i, (length data <= i)%nat ->
            ((length data - i + step - 1) / step = 0)%nat).
  { intros i Hi. apply Nat.div_small. lia. }
  induction fuel as [|fuel IH]; intros i Hfuel idxs; subst idxs.
  - rewrite Hnone by lia. split; reflexivity.
  - simpl. destruct (nth_error data i) as [v|] eqn:Hv.
    + assert (Hi : (i < length data)%nat).
      { apply nth_error_Some. congruence. }
      assert (Hfuel' : (length data - (i + step) <= fuel)%nat) by lia.
      destruct (IH (i + step)%nat Hfuel') as [IHd IHt].
      destruct (downsampleLoop fuel data timeArray step (i + step)) as [vs ts].
      cbn [fst snd] in *.
      assert (Hcount : ((length data - i + step - 1) / step
                        = S ((length data - (i + step) + step - 1) / step))%nat).
      { replace (length data - i + step - 1)%nat
          with (1 * step + (length data - i - 1))%nat by lia.
        rewrite Nat.div_add_l by lia.
        destruct (Nat.le_gt_cases step (length data - i)) as [Hge | Hlt].
        - replace (length data - (i + step) + step - 1)%nat
            with (length data - i - 1)%nat by lia.
          reflexivity.
        - rewrite (Nat.div_small (length data - i - 1)) by lia.
          rewrite (Nat.div_small (length data - (i + step) + step - 1)) by lia.
          reflexivity. }
      rewrite Hcount. rewrite <- cons_seq, <- seq_shift, !map_cons, !map_map.
      rewrite Nat.mul_0_l, Nat.add_0_r, Hv.
      rewrite map_map in IHd, IHt.
      split.
      * f_equal. rewrite IHd.
        apply map_ext. intro k. f_equal. lia.
      * f_equal. rewrite IHt.
        apply map_ext. intro k. f_equal. lia.
    + apply nth_error_None in Hv. rewrite Hnone by lia. split; reflexivity.
Qed.

(** Above [maxPoints] the result is the original pairs at the strided
    positions. *)
Lemma downsample_strided {A B : Type} (data : list A) (timeArray : list B)
    (maxPoints : nat) :
  (0 < maxPoints)%nat -> (maxPoints < length data)%nat ->
  let step := (length data / maxPoints)%nat in
  (1 <= step)%nat
  /\ map Some (fst (downsample data timeArray maxPoints))
     = map (nth_error data) (strided (length data) step)
  /\ snd (downsample data timeArray maxPoints)
     = map (nth_error timeArray) (strided (length data) step).
Proof.
  intros Hpos Hbig step.
  assert (Hstep : (1 <= step)%nat).
  { unfold step. apply Nat.div_str_pos. lia. }
  split; [exact Hstep|].
  unfold downsample.
  destruct (length data <=? maxPoints)%nat eqn:Hle.
  { apply Nat.leb_le in Hle. lia. }
  destruct maxPoints as [|m]; [lia|].
  fold step. rewrite strided_from_zero.
  apply (downsampleLoop_spec data timeArray step Hstep (length data) 0%nat).
  lia.
Qed.

Lemma map_Some_inj {A : Type} (l1 l2 : list A) :
  map Some l1 = map Some l2 -> l1 = l2.
Proof.
  revert l2. induction l1 as [|x l1 IH]; intros [|y l2] Heq;
    try discriminate; [reflexivity|].
  simpl in Heq. inversion Heq; subst. f_equal. apply IH. assumption.
Qed.

Lemma nth_error_defined {A : Type} (l : list A) (idxs : list nat) :
  Forall (fun i => (i < length l)%nat) idxs ->
  exists xs, map (nth_error l) idxs = map Some xs.
Proof.
  induction 1 as [|i idxs Hi _ [xs IH]].
  - exists []. reflexivity.
  - destruct (nth_error l i) as [x|] eqn:E.
    + exists (x :: xs). simpl. rewrite E, IH. reflexivity.
    + apply nth_error_None in E. lia.
Qed.


(** C9.  With a positive [maxPoints] and arrays of equal length, [downsample]
    returns both arrays unchanged when the data has at most [maxPoints]
    entries; otherwise, with [step = floor (length / maxPoints)], it returns the
    original values and times at the positions [0, step, 2 step, ...] below the
    length, and the loop reaches its end by itself. *)
Theorem downsample_keeps_original_points {A B : Type} (data : list A)
    (timeArray : list B) (maxPoints : nat) :
  length data = length timeArray -> (0 < maxPoints)%nat ->
  ((length data <= maxPoints)%nat ->
   downsample data timeArray maxPoints = (data, map Some timeArray))
  /\ ((maxPoints < length data)%nat ->
      let step := (length data / maxPoints)%nat in
      let idxs := strided (length data) step in
      (1 <= step)%nat
      /\ Forall (fun i => (i < length data)%nat) idxs
      /\ map Some (fst (downsample data timeArray maxPoints))
         = map (nth_error data) idxs
      /\ (exists ts, snd (downsample data timeArray maxPoints) = map Some ts
                     /\ map Some ts = map (nth_error timeArray) idxs)
      /\ (forall fuel, (length data <= fuel)%nat ->
            downsampleLoop fuel data timeArray step 0
            = downsample data timeArray maxPoints)).
Proof.
  intros Hlen Hpos. split.
  - intro Hsmall. unfold downsample.
    apply Nat.leb_le in Hsmall. rewrite Hsmall. reflexivity.
  - intros Hbig step idxs.
    destruct (downsample_strided data timeArray maxPoints Hpos Hbig)
      as (Hstep & Hdata & Htime).
    fold step in Hstep, Hdata, Htime. fold idxs in Hdata, Htime.
    pose proof (strided_below (length data) step Hstep) as Hbelow.
    fold idxs in Hbelow.
    split; [exact Hstep|]. split; [exact Hbelow|]. split; [exact Hdata|].
    split.
    + rewrite Hlen in Hbelow.
      destruct (nth_error_defined timeArray idxs Hbelow) as [ts Hts].
      exists ts. rewrite Htime. auto.
    + intros fuel Hfuel.
      assert (Hf : (length data - 0 <= fuel)%nat) by lia.
      destruct (downsampleLoop_spec data timeArray step Hstep fuel 0%nat Hf)
        as [Hd Ht].
      rewrite <- strided_from_zero in Hd, Ht. fold idxs in Hd, Ht.
      rewrite <- Hdata in Hd. rewrite <- Htime in Ht.
      apply map_Some_inj in Hd.
      destruct (downsampleLoop fuel data timeArray step 0) as [vs ts].
      destruct (downsample data timeArray maxPoints) as [vs' ts'].
      cbn [fst snd] in *. congruence.
Qed.

(** ** The chart *)

(** ** Times on the chart *)


Lemma fdiv_zero (a b : Q) : b == 0 -> fdiv a b = None.
Proof.
  intro Hb. unfold fdiv. apply Qeq_bool_iff in Hb. rewrite Hb. reflexivity.
Qed.


(** Storing a double in single precision moves it by a relative [2 ^ -24] at
    most; together with the rounding of the quotient, a time of the axis is
    within a relative [2 ^ -23] of the exact quotient. *)
Lemma single_of_double_error (q : Q) :
  Qabs (roundFloat 24 (-149) (double q) - q)
  <= Qabs q * 2 ^ (-23) + 2 ^ (-149).
Proof.
  pose proof (double_error q) as H1.
  pose proof (single_error (double q)) as H2.
  pose proof (Qabs_nonneg q) as Hq.
  set (v := roundFloat 24 (-149) (double q)) in *.
  set (w := double q) in *.
  assert (Hw : Qabs w <= Qabs q + Qabs (w - q)).
  { setoid_replace w with (q + (w - q)) at 1 by ring. apply Qabs_triangle. }
  assert (Hv : Qabs (v - q) <= Qabs (v - w) + Qabs (w - q)).
  { setoid_replace (v - q) with ((v - w) + (w - q)) by ring. apply Qabs_triangle. }
  assert (P24 : 2 ^ (-24) == 1 # 16777216) by reflexivity.
  assert (P23 : 2 ^ (-23) == 1 # 8388608) by reflexivity.
  assert (P53 : 2 ^ (-53) == 1 # 9007199254740992) by reflexivity.
  assert (Hsmall : 2 ^ (-1075) * (1 + (1 # 16777216)) + 2 ^ (-150) <= 2 ^ (-149))
    by (vm_compute; discriminate).
  assert (Hpos : 0 < 2 ^ (-1075)) by apply pow2_pos.
  set (a := Qabs q) in *. set (e1 := Qabs (w - q)) in *.
  set (e2 := Qabs (v - w)) in *. set (aw := Qabs w) in *.
  set (p := 2 ^ (-1075)) in *. set (p150 := 2 ^ (-150)) in *.
  set (p149 := 2 ^ (-149)) in *.
  rewrite P24 in H2. rewrite P53 in H1. rewrite P23.
  assert (Hmul : aw * (1 # 16777216)
                 <= (a + (a * (1 # 9007199254740992) + p)) * (1 # 16777216)).
  { apply Qmult_le_compat_r; [lra | discriminate]. }
  lra.
Qed.

Section Chart.

Context `{Platform}.


Lemma createTimeArray_nth (len : nat) (rate : Q) (i : nat) :
  (i < len)%nat ->
  nth_error (createTimeArray len rate) i
  = Some (bindn (fdiv (ofNat i) rate) Math_fround).
Proof.
  intros Hi. unfold createTimeArray.
  rewrite (map_nth_error _ i (seq 0 len) (d := i)); [reflexivity|].
  rewrite (nth_error_nth' _ 0%nat) by (rewrite length_seq; exact Hi).
  rewrite seq_nth by exact Hi. reflexivity.
Qed.



End Chart.

(** * Further properties of the page *)

(** ** Any shot list *)

Section MoreEditing.

Context `{Platform}.

Lemma onPeakToggle_frame (t : Q) (s : Session) :
  inputs (onPeakToggle t s) = inputs s
  /\ buildNotes (onPeakToggle t s) = buildNotes s
  /\ currentFile (onPeakToggle t s) = currentFile s
  /\ errorDiv (onPeakToggle t s) = errorDiv s
  /\ resultsActive (onPeakToggle t s) = resultsActive s.
Proof.
  unfold onPeakToggle.
  destruct (detector s); [destruct (currentResults s)|]; repeat split.
Qed.

(** X1.  Whatever the shot times were, a click on a loaded analysis changes
    the number of shots by exactly one: one less when some shot passes the
    tolerance test for the clicked time, one more when none does.  The new
    sample indices are one per shot and, for strictly increasing shot times at a
    non-negative sample rate, in ascending order; the settings form, the build
    notes, the file, the error panel and the visibility of the results are left
    alone. *)
Theorem click_changes_one_shot (s : Session) (d : Detector) (cur : Results)
    (t : Q) :
  detector s = Some d -> currentResults s = Some cur ->
  exists res',
    currentResults (onPeakToggle t s) = Some res'
    /\ ((Exists (within t) (shotTimes d)
         /\ S (length (peaks res')) = length (shotTimes d))
        \/ (Forall (fun x => ~ within t x) (shotTimes d)
            /\ length (peaks res') = S (length (shotTimes d))))
    /\ (0 <= sampleRate d -> increasing (shotTimes d) -> Sorted Z.le (peaks res'))
    /\ audioDuration res' = audioDuration cur
    /\ inputs (onPeakToggle t s) = inputs s
    /\ buildNotes (onPeakToggle t s) = buildNotes s
    /\ currentFile (onPeakToggle t s) = currentFile s
    /\ errorDiv (onPeakToggle t s) = errorDiv s
    /\ resultsActive (onPeakToggle t s) = resultsActive s.
Proof.
  intros Hd Hc.
  destruct (onPeakToggle_frame t s) as (Hi & Hn & Hf & He & Hr).
  rewrite (onPeakToggle_run s d cur t Hd Hc) in *.
  eexists. split; [reflexivity|]. cbn [peaks audioDuration].
  split.
  { unfold peaksOf. rewrite length_map. apply edit_length. }
  split.
  { intros Hrate Hinc. apply peaksOf_sorted; [exact Hrate|].
    apply edit_keeps_increasing. exact Hinc. }
  split; [reflexivity|]. auto.
Qed.

End MoreEditing.

Section Clicks.

Context `{Platform}.

(** X2.  A second click does not always undo the first.  On strictly
    increasing shot times, when exactly one shot [x] passes the tolerance test
    for the clicked time [t], the first click removes [x] and the second adds
    [t]: two clicks move the shot from [x] to [t]. *)
Theorem two_clicks_move_a_shot (s : Session) (d : Detector) (cur : Results)
    (t x : Q) (l1 l2 : list Q) :
  detector s = Some d -> currentResults s = Some cur ->
  shotTimes d = l1 ++ x :: l2 -> increasing (shotTimes d) ->
  within t x -> Forall (fun y => ~ within t y) (l1 ++ l2) ->
  exists d2 res2,
    detector (onPeakToggle t (onPeakToggle t s)) = Some d2
    /\ currentResults (onPeakToggle t (onPeakToggle t s)) = Some res2
    /\ shotTimes d2 = l1 ++ t :: l2
    /\ peaks res2 = peaksOf (sampleRate d) (l1 ++ t :: l2).
Proof.
  intros Hd Hc HS Hinc Hx Hout.
  pose proof Hout as Hout'.
  apply Forall_app in Hout. destruct Hout as [Hout1 Hout2].
  rewrite HS in Hinc.
  pose proof (onPeakToggle_run s d cur t Hd Hc) as Hrun. cbv zeta in Hrun.
  rewrite HS, (edit_removes l1 l2 x t Hinc Hx Hout1) in Hrun.
  set (s1 := onPeakToggle t s) in *.
  assert (Hd1 : detector s1 = Some (groupIntoBursts
            (mkDetector (params d) (sampleRate d) (audioData d)
               (l1 ++ l2) (bursts d)))) by (rewrite Hrun; reflexivity).
  assert (Hc1 : exists c1, currentResults s1 = Some c1)
    by (rewrite Hrun; eexists; reflexivity).
  destruct Hc1 as [c1 Hc1].
  pose proof (onPeakToggle_run s1 _ c1 t Hd1 Hc1) as Hrun2. cbv zeta in Hrun2.
  cbn [shotTimes groupIntoBursts params sampleRate audioData] in Hrun2.
  assert (Hinc' : increasing (l1 ++ l2)) by apply (increasing_without _ _ _ Hinc).
  destruct (sorted_before _ _ _ _ Hinc) as [Hb1 Hb2].
  rewrite Forall_forall in Hb1, Hb2, Hout1, Hout2.
  assert (H1 : Forall (fun y => y < t) l1).
  { apply Forall_forall. intros y Hy.
    destruct (Qlt_le_dec y t) as [Hlt | Hge]; [exact Hlt|].
    exfalso. apply (Hout1 y Hy). apply (within_between t x y Hx).
    left. split; [exact Hge|]. apply Qlt_le_weak. exact (Hb1 y Hy). }
  assert (H2 : Forall (fun y => t < y) l2).
  { apply Forall_forall. intros y Hy.
    destruct (Qlt_le_dec t y) as [Hlt | Hge]; [exact Hlt|].
    exfalso. apply (Hout2 y Hy). apply (within_between t x y Hx).
    right. split; [|exact Hge]. apply Qlt_le_weak. exact (Hb2 y Hy). }
  rewrite (edit_adds l1 l2 t Hinc' Hout' H1 H2) in Hrun2.
  eexists. eexists. rewrite Hrun2.
  cbn [detector currentResults shotTimes groupIntoBursts peaks].
  repeat split.
Qed.

End Clicks.

Section Markers.

Context `{Platform}.

(** X5.  A click reaches [onPeakToggle] only with a numeric first point and a
    loaded analysis: without points, with a first point that is no number,
    with no detector or no results (as after [cleanup]), the session is left as
    it is.  [cleanup] itself leaves neither detector nor results and is
    idempotent. *)
Theorem clicks_need_an_analysis (data : option (list JsValue)) (s : Session) :
  (detector s = None \/ currentResults s = None \/ data = None
   \/ data = Some [] \/ exists rest, data = Some (JsOther :: rest)) ->
  onChartClick data s = s
  /\ onChartClick data (cleanup s) = cleanup s
  /\ cleanup (cleanup s) = cleanup s.
Proof.
  intro Hcase. split; [|split].
  - unfold onChartClick. destruct (visualizer s) as [element|]; [|reflexivity].
    destruct (listening element); [|reflexivity].
    unfold plotlyClick, onPeakToggle.
    destruct Hcase as [Hd | [Hc | [-> | [-> | [rest ->]]]]]; try reflexivity.
    + rewrite Hd. destruct data as [[|[q|] rest]|]; reflexivity.
    + rewrite Hc. destruct data as [[|[q|] rest]|]; try reflexivity.
      destruct (detector s); reflexivity.
  - reflexivity.
  - reflexivity.
Qed.

(** The fields of the session that an analysis reads. *)
Lemma analyzeRateOfFire_success (file : File) (s s' : Session) :
  inputs s' = inputs s -> buildNotes s' = buildNotes s ->
  currentFile s' = currentFile s -> errorDiv s' = errorDiv s ->
  resultsActive s' = resultsActive s ->
  snd (analyzeRateOfFire file s) = None ->
  analyzeRateOfFire file s' = analyzeRateOfFire file s.
Proof.
  intros Hi Hn Hf He Hr. unfold analyzeRateOfFire.
  rewrite Hi, Hn, Hf, He, Hr.
  destruct (newRateOfFireDetector _) as [d0|e]; [|discriminate].
  destruct (analyze d0 file) as [d results].
  destruct (render d results); [reflexivity | discriminate].
Qed.

Lemma analyzeRateOfFire_outcome (file : File) (s s' : Session) :
  inputs s' = inputs s ->
  snd (analyzeRateOfFire file s') = snd (analyzeRateOfFire file s).
Proof.
  intro Hi. unfold analyzeRateOfFire. rewrite Hi.
  destruct (newRateOfFireDetector _) as [d0|e]; [|reflexivity].
  destruct (analyze d0 file) as [d results].
  destruct (render d results); reflexivity.
Qed.

Lemma toggles_frame (clicks : list Q) (s : Session) :
  inputs (toggles clicks s) = inputs s
  /\ buildNotes (toggles clicks s) = buildNotes s
  /\ currentFile (toggles clicks s) = currentFile s
  /\ errorDiv (toggles clicks s) = errorDiv s
  /\ resultsActive (toggles clicks s) = resultsActive s.
Proof.
  revert s. induction clicks as [|t clicks IH]; intro s; [repeat split|].
  change (toggles (t :: clicks) s) with (toggles clicks (onPeakToggle t s)).
  destruct (IH (onPeakToggle t s)) as (Hi & Hn & Hf & He & Hr).
  destruct (onPeakToggle_frame t s) as (Hi' & Hn' & Hf' & He' & Hr').
  repeat split; congruence.
Qed.

(** X6.  A re-analysis that succeeds discards every manual edit: whatever
    clicks came before it, the session it leaves is the one it leaves without
    them. *)
Theorem reanalysis_discards_edits (file : File) (clicks : list Q) (s : Session) :
  currentFile s = Some file ->
  snd (analyzeRateOfFire file s) = None ->
  reanalyze (toggles clicks s) = reanalyze s.
Proof.
  intros Hfile Hok.
  destruct (toggles_frame clicks s) as (Hi & Hn & Hf & He & Hr).
  unfold reanalyze. rewrite Hf, Hfile.
  set (a := mkSession (inputs (toggles clicks s)) _ _ _ _ _ _ _ _).
  set (b := mkSession (inputs s) _ _ _ _ _ _ _ _).
  assert (Hb : snd (analyzeRateOfFire file b) = None).
  { rewrite <- Hok. apply analyzeRateOfFire_outcome. reflexivity. }
  rewrite (analyzeRateOfFire_success file b a); auto.
Qed.

(** X7.  [handleFile] starts from scratch: the session it leaves depends on the
    previous one only through the settings form, the build notes and the
    panels already written; the previous detector, results, chart, file, error
    and visibility never show through. *)
Theorem handleFile_starts_afresh (file : File) (s s' : Session) :
  inputs s' = inputs s -> buildNotes s' = buildNotes s ->
  rofDisplay s' = rofDisplay s ->
  handleFile (Some file) s' = handleFile (Some file) s.
Proof.
  intros Hi Hn Hd. unfold handleFile, cleanup.
  cbn [inputs buildNotes detector currentResults visualizer currentFile
       rofDisplay errorDiv resultsActive].
  rewrite Hi, Hn, Hd. reflexivity.
Qed.

Lemma quiet_click (data : option (list JsValue)) (s : Session) :
  quiet s -> onChartClick data s = s.
Proof.
  unfold quiet, onChartClick. destruct (visualizer s) as [element|]; [|reflexivity].
  intros ->. reflexivity.
Qed.

Lemma quiet_analysis (file : File) (s : Session) :
  quiet s -> quiet (fst (analyzeRateOfFire file s)).
Proof.
  intro Hq. unfold analyzeRateOfFire.
  destruct (newRateOfFireDetector _) as [d0|e]; [|exact Hq].
  destruct (analyze d0 file) as [d results].
  destruct (render d results); unfold quiet; cbn [fst visualizer listening];
    [reflexivity|].
  unfold quiet in Hq. destruct (visualizer s); [exact Hq | reflexivity].
Qed.

Lemma quiet_step (s : Session) (e : PageEvent) : quiet s -> quiet (pageStep s e).
Proof.
  intro Hq. destruct e as [file | values | | data]; cbn [pageStep].
  - destruct file as [f|]; [|exact Hq]. unfold handleFile.
    match goal with
    | |- context [analyzeRateOfFire f ?s2] =>
        assert (Hq2 : quiet s2) by exact I;
        pose proof (quiet_analysis f s2 Hq2) as Hq3;
        destruct (analyzeRateOfFire f s2) as [s3 [err|]]
    end; exact Hq3.
  - exact Hq.
  - unfold reanalyze. destruct (currentFile s) as [f|]; [|exact Hq].
    match goal with
    | |- context [analyzeRateOfFire f ?s1] =>
        assert (Hq1 : quiet s1) by exact Hq;
        pose proof (quiet_analysis f s1 Hq1) as Hq2;
        destruct (analyzeRateOfFire f s1) as [s2 [err|]]
    end; exact Hq2.
  - rewrite (quiet_click data s Hq). exact Hq.
Qed.

Lemma quiet_run (events : list PageEvent) (s : Session) :
  quiet s -> quiet (runPage events s).
Proof.
  revert s. induction events as [|e events IH]; intros s Hq; [exact Hq|].
  apply (IH (pageStep s e)). apply quiet_step. exact Hq.
Qed.

(** X3.  No chart click ever edits the shots on this page.  [setupInteractions]
    is called on a new visualizer before anything is drawn on its element,
    which has no [on] method then, so it returns without registering the
    listener: after any files, settings, re-analyses and clicks, a click leaves
    the session as it is, and the session is the one reached without the
    clicks. *)
Theorem chart_clicks_change_nothing (values : Inputs) (notes : string)
    (events : list PageEvent) :
  (forall data : option (list JsValue),
      onChartClick data (runPage events (pageLoaded values notes))
      = runPage events (pageLoaded values notes))
  /\ runPage events (pageLoaded values notes)
     = runPage (filter (fun e => negb (isClick e)) events)
         (pageLoaded values notes)
  /\ setupInteractions (Some (mkChart None false)) = false
  /\ (forall plot : Plot,
        setupInteractions (Some (mkChart (Some plot) false)) = true).
Proof.
  assert (Hstart : quiet (pageLoaded values notes)) by exact I.
  split; [|split; [|split]].
  - intro data. apply quiet_click. apply quiet_run. exact Hstart.
  - revert Hstart. generalize (pageLoaded values notes).
    induction events as [|e events IH]; intros s Hq; [reflexivity|].
    destruct e as [file | values' | | data]; cbn [filter isClick negb runPage fold_left].
    + apply (IH _ (quiet_step s (FileChosen file) Hq)).
    + apply (IH _ (quiet_step s (SettingsEdited values') Hq)).
    + apply (IH _ (quiet_step s TimerFired Hq)).
    + cbn [pageStep]. rewrite (quiet_click data s Hq). apply (IH s Hq).
  - reflexivity.
  - intro plot. reflexivity.
Qed.

End Markers.

(** ** The panels and the chart *)

Lemma traverse_length {A B : Type} (f : A -> option B) (l : list A)
    (ys : list B) :
  traverse f l = Some ys -> length ys = length l.
Proof.
  revert ys. induction l as [|x l IH]; simpl; intros ys Hys.
  - inversion Hys. reflexivity.
  - destruct (f x); [|discriminate]. destruct (traverse f l); [|discriminate].
    inversion Hys. simpl. f_equal. apply IH. reflexivity.
Qed.

Lemma traverse_nth {A B : Type} (f : A -> option B) (l : list A)
    (ys : list B) (i : nat) (x : A) :
  traverse f l = Some ys -> nth_error l i = Some x ->
  exists y, f x = Some y /\ nth_error ys i = Some y.
Proof.
  revert ys i. induction l as [|a l IH]; simpl; intros ys i Hys Hx.
  - destruct i; discriminate.
  - destruct (f a) as [b|] eqn:Hb; [|discriminate].
    destruct (traverse f l) as [bs|]; [|discriminate].
    inversion Hys; subst ys. destruct i as [|i]; simpl in *.
    + inversion Hx; subst a. exists b. split; [exact Hb | reflexivity].
    + apply (IH bs i eq_refl Hx).
Qed.

Lemma traverse_fails {A B : Type} (f : A -> option B) (l : list A) (x : A) :
  In x l -> f x = None -> traverse f l = None.
Proof.
  intros Hin Hx. induction l as [|a l IH]; simpl; [contradiction|].
  destruct Hin as [-> | Hin].
  - rewrite Hx. reflexivity.
  - rewrite (IH Hin). destruct (f a); reflexivity.
Qed.

Lemma getBurstColor_period (i : nat) :
  getBurstColor (i + 10) = getBurstColor i /\ In (getBurstColor i) COLORS.
Proof.
  unfold getBurstColor. change (length COLORS) with 10%nat. split.
  - replace (i + 10)%nat with (i + 1 * 10)%nat by lia.
    rewrite Nat.Div0.mod_add. reflexivity.
  - apply nth_In. change (length COLORS) with 10%nat.
    apply Nat.mod_upper_bound. discriminate.
Qed.

Lemma generateColors_nth (n i : nat) :
  (i < n)%nat -> nth i (generateColors n) EmptyString = getBurstColor i.
Proof.
  intro Hi. unfold generateColors.
  rewrite (nth_indep _ EmptyString
             (nth (0 mod length baseColors) baseColors EmptyString))
    by (rewrite length_map, length_seq; exact Hi).
  rewrite (map_nth (fun j => nth (j mod length baseColors) baseColors EmptyString)).
  rewrite seq_nth by exact Hi. reflexivity.
Qed.

Lemma cardsFrom_length (k : nat) (bs : list Burst) :
  length (cardsFrom k bs) = length bs.
Proof.
  revert k. induction bs as [|b bs IH]; intro k; simpl; [reflexivity|].
  rewrite IH. reflexivity.
Qed.

Lemma cardsFrom_nth (k i : nat) (bs : list Burst) (b : Burst) :
  nth_error bs i = Some b ->
  exists c,
    nth_error (cardsFrom k bs) i = Some c
    /\ cardNumber c = burstNumber b /\ cardShots c = numShots b
    /\ borderColor c = getBurstColor (k + i).
Proof.
  revert k i. induction bs as [|a bs IH]; intros k i Hb.
  - destruct i; discriminate.
  - destruct i as [|i]; simpl in *.
    + inversion Hb; subst a. eexists. split; [reflexivity|].
      rewrite Nat.add_0_r. repeat split.
    + destruct (IH (S k) i Hb) as (c & Hc & Hn & Hs & Hcol).
      exists c. split; [exact Hc|]. split; [exact Hn|]. split; [exact Hs|].
      rewrite Hcol. f_equal. lia.
Qed.

(** X8.  [displayROFResults] always fills the summary grid to six cells: the
    six items, in their order and with no blank, when the summary counts a
    burst; no item and six blanks otherwise.  It writes the no-burst notice
    exactly when the Burst list is empty and otherwise one card per burst, in
    order, card [i] carrying the burst's number and shot count and the colour
    [COLORS[i % 10]]. *)
Theorem summary_grid_and_cards (notes : string) (d : Detector)
    (results : Results) :
  (length (items (displayROFResults notes d results))
   + emptySlots (displayROFResults notes d results) = 6)%nat
  /\ ((0 < totalBursts (summary results))%nat ->
      map label (items (displayROFResults notes d results))
      = ["Total Shots"; "Total Bursts"; "Avg RPM"; "STD Deviation";
         "Mean Deviation"; "Rate Range"]%string
      /\ map value (firstn 2 (items (displayROFResults notes d results)))
         = [Count (totalShots (summary results));
            Count (totalBursts (summary results))]
      /\ emptySlots (displayROFResults notes d results) = 0%nat)
  /\ (totalBursts (summary results) = 0%nat ->
      items (displayROFResults notes d results) = []
      /\ emptySlots (displayROFResults notes d results) = 6%nat)
  /\ (items (displayROFResults notes d results) = []
      <-> totalBursts (summary results) = 0%nat)
  /\ (burstCards (displayROFResults notes d results) = None
      <-> resBursts results = [])
  /\ (forall cards,
        burstCards (displayROFResults notes d results) = Some cards ->
        length cards = length (resBursts results)
        /\ forall i b,
            nth_error (resBursts results) i = Some b ->
            exists c, nth_error cards i = Some c
                      /\ cardNumber c = burstNumber b
                      /\ cardShots c = numShots b
                      /\ borderColor c = getBurstColor i).
Proof.
  unfold displayROFResults. cbn [items emptySlots burstCards].
  split; [|split; [|split; [|split; [|split]]]].
  - unfold summaryItems. destruct (0 <? totalBursts (summary results))%nat;
      reflexivity.
  - intro Hsome. unfold summaryItems. apply Nat.ltb_lt in Hsome.
    rewrite Hsome. repeat split.
  - intro Hnone. unfold summaryItems. rewrite Hnone. split; reflexivity.
  - unfold summaryItems.
    destruct (0 <? totalBursts (summary results))%nat eqn:E.
    + apply Nat.ltb_lt in E. split; [discriminate | lia].
    + apply Nat.ltb_ge in E. split; [lia | reflexivity].
  - destruct (resBursts results) as [|b bs]; simpl.
    + split; reflexivity.
    + split; discriminate.
  - intros cards Hcards.
    destruct (0 <? length (resBursts results))%nat; [|discriminate].
    inversion Hcards; subst cards. split; [apply cardsFrom_length|].
    intros i b Hb. apply (cardsFrom_nth 0 i _ b Hb).
Qed.

Section Rendering.

Context `{Platform}.

(** The rectangles that [render] draws. *)
Lemma render_shapes (d : Detector) (results : Results) (plot : Plot) :
  render d results = Some plot ->
  traverse
    (fun i =>
       match nth_error (resBursts results) i with
       | Some burstData =>
           Some (mkShape (startTime burstData) (endTime burstData)
                   (nth i (generateColors (length (bursts d))) EmptyString ++ "25")%string
                   (nth i (generateColors (length (bursts d))) EmptyString))
       | None => None
       end)
    (seq 0 (length (bursts d)))
  = Some (shapes plot).
Proof.
  unfold render. cbv zeta.
  destruct (traverse _ (seq 0 (length (bursts d)))) as [rects|];
    intro Hrender; [|discriminate].
  inversion Hrender. reflexivity.
Qed.

(** X9.  [render] throws exactly when some burst of the detector has no entry
    in [results.bursts].  When it draws, there is one rectangle per detector
    burst, and rectangle [i] spans the start and end time of result [i]. *)
Theorem render_needs_every_burst (d : Detector) (results : Results) :
  (render d results <> None
   <-> (length (bursts d) <= length (resBursts results))%nat)
  /\ (forall plot,
        render d results = Some plot ->
        length (shapes plot) = length (bursts d)
        /\ forall i b,
            (i < length (bursts d))%nat ->
            nth_error (resBursts results) i = Some b ->
            exists sh, nth_error (shapes plot) i = Some sh
                       /\ x0 sh = startTime b /\ x1 sh = endTime b).
Proof.
  split.
  - split; [|apply render_draws].
    intro Hdraws.
    destruct (Nat.le_gt_cases (length (bursts d)) (length (resBursts results)))
      as [Hle | Hgt]; [exact Hle|].
    exfalso. apply Hdraws. unfold render.
    rewrite (traverse_fails _ _ (length (resBursts results))).
    + reflexivity.
    + apply in_seq. lia.
    + destruct (nth_error (resBursts results) (length (resBursts results)))
        eqn:E; [|reflexivity].
      assert (Hsome : nth_error (resBursts results) (length (resBursts results))
                      <> None) by congruence.
      apply nth_error_Some in Hsome. lia.
  - intros plot Hrender. apply render_shapes in Hrender. split.
    + rewrite (traverse_length _ _ _ Hrender). apply length_seq.
    + intros i b Hi Hb.
      assert (Hseq : nth_error (seq 0 (length (bursts d))) i = Some i).
      { rewrite (nth_error_nth' _ 0%nat) by (rewrite length_seq; exact Hi).
        rewrite seq_nth by exact Hi. reflexivity. }
      destruct (traverse_nth _ _ _ _ _ Hrender Hseq) as (sh & Hsh & Hnth).
      rewrite Hb in Hsh. inversion Hsh; subst sh.
      eexists. split; [exact Hnth|]. split; reflexivity.
Qed.

(** X10.  The chart and the cards agree on colours: the rectangle of burst [i]
    is outlined in the colour of card [i], [COLORS[i % 10]], and filled with
    that colour followed by the opacity [25]; the colours repeat every ten
    bursts. *)
Theorem burst_colours_agree (d : Detector) (results : Results) (plot : Plot)
    (i : nat) :
  render d results = Some plot -> (i < length (bursts d))%nat ->
  exists sh,
    nth_error (shapes plot) i = Some sh
    /\ linecolor sh = getBurstColor i
    /\ fillcolor sh = (getBurstColor i ++ "25")%string
    /\ getBurstColor (i + 10) = getBurstColor i
    /\ In (getBurstColor i) COLORS.
Proof.
  intros Hrender Hi. apply render_shapes in Hrender.
  assert (Hseq : nth_error (seq 0 (length (bursts d))) i = Some i).
  { rewrite (nth_error_nth' _ 0%nat) by (rewrite length_seq; exact Hi).
    rewrite seq_nth by exact Hi. reflexivity. }
  destruct (traverse_nth _ _ _ _ _ Hrender Hseq) as (sh & Hsh & Hnth).
  destruct (nth_error (resBursts results) i) as [b|]; [|discriminate].
  inversion Hsh; subst sh.
  eexists. split; [exact Hnth|].
  destruct (getBurstColor_period i) as [Hp Hin].
  cbn [linecolor fillcolor]. rewrite generateColors_nth by exact Hi. auto.
Qed.

Lemma index_defined {A : Type} (l : list A) (i : Z) :
  index l i = None <-> (i < 0 \/ Z.of_nat (length l) <= i)%Z.
Proof.
  unfold index. destruct (i <? 0)%Z eqn:E.
  - apply Z.ltb_lt in E. split; [left; exact E | reflexivity].
  - apply Z.ltb_ge in E. rewrite nth_error_None. split; intro Hcase.
    + right. lia.
    + destruct Hcase; lia.
Qed.

(** X11.  [render] draws the trace of shot markers exactly when there are
    peaks, one marker per peak; the amplitude of a marker is the sample at its
    index, and it is undefined exactly when the index lies outside the
    recording (negative, or at or beyond the sample count). *)
Theorem markers_follow_peaks (d : Detector) (results : Results) (plot : Plot) :
  render d results = Some plot ->
  (peakTrace plot = None <-> peaks results = [])
  /\ (forall times amplitudes,
        peakTrace plot = Some (times, amplitudes) ->
        length times = length (peaks results)
        /\ amplitudes = map (index (audioData d)) (peaks results)
        /\ forall k idx,
            nth_error (peaks results) k = Some idx ->
            (nth_error amplitudes k = Some None
             <-> (idx < 0 \/ Z.of_nat (length (audioData d)) <= idx)%Z)).
Proof.
  unfold render. cbv zeta.
  destruct (traverse _ (seq 0 (length (bursts d)))) as [rects|];
    intro Hrender; [|discriminate].
  inversion Hrender; subst plot; clear Hrender. cbn [peakTrace].
  destruct (peaks results) as [|p ps] eqn:Hpeaks.
  - simpl. split; [split; reflexivity|]. intros times amplitudes Habs.
    discriminate.
  - change ((0 <? length (p :: ps))%nat) with true. cbv iota.
    split; [split; discriminate|].
    intros times amplitudes Heq.
    injection Heq as Ht Ha. subst times amplitudes.
    split; [simpl; rewrite length_map; reflexivity|]. split; [reflexivity|].
    intros k idx Hk.
    change (index (audioData d) p
            :: map (fun i => index (audioData d) i) ps)
      with (map (fun i => index (audioData d) i) (p :: ps)).
    rewrite (map_nth_error _ k (p :: ps) Hk).
    rewrite <- index_defined. split; intro Hnone.
    + inversion Hnone. reflexivity.
    + rewrite Hnone. reflexivity.
Qed.

End Rendering.

(** ** More on downsampling *)

Lemma strided_count (len m : nat) :
  (0 < m)%nat -> (m < len)%nat ->
  (m <= length (strided len (len / m)) <= 2 * m - 1)%nat.
Proof.
  intros Hm Hlen. unfold strided. rewrite length_map, length_seq.
  set (step := (len / m)%nat).
  assert (Hstep : (1 <= step)%nat) by (apply Nat.div_str_pos; lia).
  pose proof (Nat.Div0.mul_div_le len m) as H1. fold step in H1.
  pose proof (Nat.mul_succ_div_gt len m) as H2. fold step in H2.
  assert (Hm0 : m <> 0%nat) by lia. specialize (H2 Hm0).
  set (c := ((len + step - 1) / step)%nat).
  pose proof (Nat.Div0.mul_div_le (len + step - 1) step) as H3. fold c in H3.
  pose proof (Nat.mul_succ_div_gt (len + step - 1) step) as H4. fold c in H4.
  assert (Hs0 : step <> 0%nat) by lia. specialize (H4 Hs0).
  split; nia.
Qed.

Lemma strided_last (len step : nat) :
  (1 <= step)%nat -> (1 <= len)%nat ->
  let c := length (strided len step) in
  (1 <= c)%nat
  /\ (len - step <= (c - 1) * step < len)%nat
  /\ (((c - 1) * step = len - 1)%nat <-> ((len - 1) mod step = 0)%nat).
Proof.
  intros Hstep Hlen c. subst c. unfold strided. rewrite length_map, length_seq.
  set (c := ((len + step - 1) / step)%nat).
  pose proof (Nat.Div0.mul_div_le (len + step - 1) step) as H3. fold c in H3.
  pose proof (Nat.mul_succ_div_gt (len + step - 1) step) as H4. fold c in H4.
  assert (Hs0 : step <> 0%nat) by lia. specialize (H4 Hs0).
  assert (Hc : (1 <= c)%nat) by nia.
  clearbody c. destruct c as [|c']; [lia|].
  replace (S c' - 1)%nat with c' by lia.
  assert (Hlow : (c' * step + 1 <= len)%nat) by nia.
  assert (Hhigh : (len <= c' * step + step)%nat) by nia.
  split; [exact Hc|]. split; [lia|]. split.
  - intro Heq. rewrite <- Heq. apply Nat.Div0.mod_mul.
  - intro Hmod. apply Nat.Div0.div_exact in Hmod.
    set (k := ((len - 1) / step)%nat) in *.
    assert (Hk : (k = c')%nat) by nia. subst k. lia.
Qed.

Lemma strided_nth (len step k : nat) :
  (k < length (strided len step))%nat ->
  nth_error (strided len step) k = Some (k * step)%nat.
Proof.
  unfold strided. rewrite length_map, length_seq. intro Hk.
  rewrite (map_nth_error (fun j => (j * step)%nat) k (seq 0 _) (d := k)).
  - reflexivity.
  - rewrite (nth_error_nth' _ 0%nat) by (rewrite length_seq; exact Hk).
    rewrite seq_nth by exact Hk. reflexivity.
Qed.

(** The point [k] of a strided result is the original pair at [k * step]. *)
Lemma downsample_point {A B : Type} (data : list A) (timeArray : list B)
    (maxPoints k : nat) :
  (0 < maxPoints)%nat -> (maxPoints < length data)%nat ->
  (k < length (strided (length data) (length data / maxPoints)))%nat ->
  nth_error (fst (downsample data timeArray maxPoints)) k
  = nth_error data (k * (length data / maxPoints))
  /\ nth_error (snd (downsample data timeArray maxPoints)) k
     = Some (nth_error timeArray (k * (length data / maxPoints))).
Proof.
  intros Hpos Hbig Hk.
  destruct (downsample_strided data timeArray maxPoints Hpos Hbig)
    as (Hstep & Hdata & Htime).
  pose proof (strided_nth _ _ _ Hk) as Hnth.
  split.
  - assert (Hboth : nth_error (map Some (fst (downsample data timeArray maxPoints))) k
                    = nth_error (map (nth_error data)
                                   (strided (length data) (length data / maxPoints))) k)
      by (rewrite Hdata; reflexivity).
    rewrite (map_nth_error _ k _ Hnth) in Hboth.
    rewrite nth_error_map in Hboth.
    destruct (nth_error (fst (downsample data timeArray maxPoints)) k);
      simpl in Hboth; congruence.
  - rewrite Htime. apply (map_nth_error _ k _ Hnth).
Qed.

(** X12.  [maxPoints] is not a maximum.  When the data has more than
    [maxPoints] entries, [downsample] returns as many values as times, at least
    [maxPoints] of them and at most [2 * maxPoints - 1]. *)
Theorem downsample_point_count {A B : Type} (data : list A) (timeArray : list B)
    (maxPoints : nat) :
  (0 < maxPoints)%nat -> (maxPoints < length data)%nat ->
  length (fst (downsample data timeArray maxPoints))
  = length (snd (downsample data timeArray maxPoints))
  /\ (maxPoints <= length (fst (downsample data timeArray maxPoints))
      <= 2 * maxPoints - 1)%nat.
Proof.
  intros Hpos Hbig.
  destruct (downsample_strided data timeArray maxPoints Hpos Hbig)
    as (Hstep & Hdata & Htime).
  assert (Hlen : length (fst (downsample data timeArray maxPoints))
                 = length (strided (length data) (length data / maxPoints))).
  { rewrite <- (length_map Some), Hdata. apply length_map. }
  split.
  - rewrite Hlen, Htime. symmetry. apply length_map.
  - rewrite Hlen. apply strided_count; assumption.
Qed.

(** X13.  A strided result starts at the first sample, and its last point is the
    sample at the last multiple of the step below the length: the plot stops at
    most [step - 1] samples before the end of the data and reaches the last
    sample exactly when the step divides [length - 1]. *)
Theorem downsample_first_and_last {A B : Type} (data : list A)
    (timeArray : list B) (maxPoints : nat) :
  (0 < maxPoints)%nat -> (maxPoints < length data)%nat ->
  let step := (length data / maxPoints)%nat in
  let count := length (fst (downsample data timeArray maxPoints)) in
  nth_error (fst (downsample data timeArray maxPoints)) 0 = nth_error data 0
  /\ nth_error (fst (downsample data timeArray maxPoints)) (count - 1)
     = nth_error data ((count - 1) * step)
  /\ (length data - step <= (count - 1) * step < length data)%nat
  /\ (((count - 1) * step = length data - 1)%nat
      <-> ((length data - 1) mod step = 0)%nat).
Proof.
  intros Hpos Hbig step count.
  destruct (downsample_strided data timeArray maxPoints Hpos Hbig)
    as (Hstep & Hdata & _). fold step in Hstep, Hdata.
  assert (Hlen : count = length (strided (length data) step)).
  { unfold count. rewrite <- (length_map Some), Hdata. apply length_map. }
  assert (Hone : (1 <= length data)%nat) by lia.
  destruct (strided_last (length data) step Hstep Hone) as (Hc & Hrange & Hiff).
  rewrite <- Hlen in Hc, Hrange, Hiff.
  split; [|split; [|split]].
  - apply (downsample_point data timeArray maxPoints 0 Hpos Hbig).
    fold step. rewrite <- Hlen. lia.
  - apply (downsample_point data timeArray maxPoints (count - 1) Hpos Hbig).
    fold step. rewrite <- Hlen. lia.
  - exact Hrange.
  - exact Hiff.
Qed.

(** ** Strings *)

Lemma string_length_append (a b : string) :
  String.length (a ++ b) = (String.length a + String.length b)%nat.
Proof.
  induction a as [|c a IH]; simpl; [reflexivity|]. rewrite IH. reflexivity.
Qed.

Lemma append_inv_head (a b c : string) : (a ++ b = a ++ c -> b = c)%string.
Proof.
  induction a as [|x a IH]; simpl; intro Heq; [exact Heq|].
  inversion Heq. auto.
Qed.

Lemma append_inj_length (a a' b b' : string) :
  String.length a = String.length a' ->
  (a ++ b = a' ++ b')%string -> a = a' /\ b = b'.
Proof.
  revert a'. induction a as [|x a IH]; intros [|x' a'] Hlen Heq;
    simpl in Hlen; try discriminate.
  - split; [reflexivity | exact Heq].
  - simpl in Heq. inversion Heq; subst x'.
    destruct (IH a' (eq_add_S _ _ Hlen) H1) as [-> ->].
    split; reflexivity.
Qed.

Lemma strip_appended_slash (u : string) :
  stripTrailingSlash (u ++ "/") = u.
Proof.
  induction u as [|c u IH]; [reflexivity|].
  simpl. rewrite IH.
  destruct u; reflexivity.
Qed.

Lemma strip_without_slash (u : string) :
  (forall v, u <> (v ++ "/")%string) -> stripTrailingSlash u = u.
Proof.
  induction u as [|c u IH]; intro Hno; [reflexivity|].
  simpl. destruct u as [|c' u].
  - destruct (Ascii.eqb c "/") eqn:E; [|reflexivity].
    apply Ascii.eqb_eq in E. subst c. exfalso. apply (Hno EmptyString).
    reflexivity.
  - f_equal. apply IH. intros v Hv. apply (Hno (String c v)).
    simpl. rewrite Hv. reflexivity.
Qed.

Lemma getFFmpegURLs_production (devCoreURL devWasmURL u : string) :
  u <> EmptyString ->
  getFFmpegURLs devCoreURL devWasmURL (Some u)
  = mkFFmpegURLs (stripTrailingSlash u ++ "/assets/wasm/ffmpeg-core.js")
      (stripTrailingSlash u ++ "/assets/wasm/ffmpeg-core.wasm")
      (Some (stripTrailingSlash u ++ "/assets/js/worker.js"))%string.
Proof.
  intro Hne. destruct u as [|c rest]; [congruence | reflexivity].
Qed.

(** X14.  A plugin URL is used with or without its closing slash: for a
    non-empty [u] that does not end in a slash, [u] and [u/] give the same three
    locations, all under [u] and with a worker; a missing or empty plugin URL
    gives the development locations and no worker. *)
Theorem ffmpeg_urls_ignore_closing_slash (devCoreURL devWasmURL u : string) :
  u <> EmptyString -> (forall v, u <> (v ++ "/")%string) ->
  getFFmpegURLs devCoreURL devWasmURL (Some (u ++ "/")%string)
  = getFFmpegURLs devCoreURL devWasmURL (Some u)
  /\ getFFmpegURLs devCoreURL devWasmURL (Some u)
     = mkFFmpegURLs (u ++ "/assets/wasm/ffmpeg-core.js")
         (u ++ "/assets/wasm/ffmpeg-core.wasm")
         (Some (u ++ "/assets/js/worker.js"))%string
  /\ getFFmpegURLs devCoreURL devWasmURL None
     = mkFFmpegURLs devCoreURL devWasmURL None
  /\ getFFmpegURLs devCoreURL devWasmURL (Some EmptyString)
     = mkFFmpegURLs devCoreURL devWasmURL None.
Proof.
  intros Hne Hno.
  assert (Hne' : (u ++ "/")%string <> EmptyString).
  { destruct u; discriminate. }
  rewrite (getFFmpegURLs_production _ _ _ Hne).
  rewrite (getFFmpegURLs_production _ _ _ Hne').
  rewrite strip_appended_slash, (strip_without_slash _ Hno).
  repeat split.
Qed.

Lemma readNat_String (n : nat) : readNat (String_ n) = Some n.
Proof.
  unfold readNat, String_. rewrite NilEmpty.usu. simpl.
  rewrite DecimalNat.Unsigned.of_to. reflexivity.
Qed.

Lemma readNat_padded (k : nat) (s : string) (n : nat) :
  readNat s = Some n -> readNat (repeatChar "0" k ++ s) = Some n.
Proof.
  intro Hs. induction k as [|k IH]; [exact Hs|].
  simpl. unfold readNat in *. simpl.
  destruct (NilEmpty.uint_of_string (repeatChar "0" k ++ s)) as [u|];
    [|discriminate].
  simpl in *. exact IH.
Qed.

Lemma readNat_padStart (n : nat) : readNat (padStart 2 "0" (String_ n)) = Some n.
Proof.
  unfold padStart. apply readNat_padded. apply readNat_String.
Qed.

Lemma padStart_two (n : nat) :
  (n < 100)%nat -> String.length (padStart 2 "0" (String_ n)) = 2%nat.
Proof.
  intro Hn.
  assert (Hall : forallb
                   (fun k => (String.length (padStart 2 "0" (String_ k)) =? 2)%nat)
                   (seq 0 100) = true) by (vm_compute; reflexivity).
  rewrite forallb_forall in Hall. apply Nat.eqb_eq. apply Hall.
  apply in_seq. lia.
Qed.

Lemma four_digits (n : nat) :
  (1000 <= n < 10 * 1000)%nat -> String.length (String_ n) = 4%nat.
Proof.
  intro Hn.
  assert (Hall : forallb (fun k => (String.length (String_ k) =? 4)%nat)
                   (seq 1000 (9 * 1000)) = true) by (vm_compute; reflexivity).
  rewrite forallb_forall in Hall. apply Nat.eqb_eq. apply Hall.
  apply in_seq. lia.
Qed.

(** X15.  For a calendar date the report name has a fixed layout: every part
    but the year takes two characters, so the name has 22 characters and the
    year, 26 in all for a four-digit year. *)
Theorem report_name_length (now : DateParts) :
  calendar now ->
  String.length (getROFFileName now)
  = (22 + String.length (String_ (getFullYear now)))%nat
  /\ ((1000 <= getFullYear now < 10 * 1000)%nat ->
      String.length (getROFFileName now) = 26%nat).
Proof.
  intros (Hmonth & Hdate & Hhours & Hminutes).
  assert (Hlen : String.length (getROFFileName now)
                 = (22 + String.length (String_ (getFullYear now)))%nat).
  { unfold getROFFileName. cbv zeta.
    rewrite !string_length_append.
    rewrite !padStart_two by lia. simpl. lia. }
  split; [exact Hlen|].
  intro Hyear. rewrite Hlen, four_digits by exact Hyear. reflexivity.
Qed.

(** X16.  Report names tell calendar dates apart down to the minute: two dates
    with the same name have the same month, day, year, hour and minute. *)
Theorem report_name_injective (a b : DateParts) :
  calendar a -> calendar b ->
  getROFFileName a = getROFFileName b -> a = b.
Proof.
  intros (Ha1 & Ha2 & Ha3 & Ha4) (Hb1 & Hb2 & Hb3 & Hb4) Heq.
  unfold getROFFileName in Heq. cbv zeta in Heq.
  apply append_inv_head in Heq.
  apply append_inj_length in Heq; [|rewrite !padStart_two by lia; reflexivity].
  destruct Heq as [Hmm Heq].
  apply append_inv_head in Heq.
  apply append_inj_length in Heq; [|rewrite !padStart_two by lia; reflexivity].
  destruct Heq as [Hdd Heq].
  apply append_inv_head in Heq.
  assert (Hylen : String.length (String_ (getFullYear a))
                  = String.length (String_ (getFullYear b))).
  { apply (f_equal String.length) in Heq.
    rewrite !string_length_append in Heq.
    rewrite !padStart_two in Heq by lia. simpl in Heq. lia. }
  apply append_inj_length in Heq; [|exact Hylen].
  destruct Heq as [Hyyyy Heq].
  apply append_inv_head in Heq.
  apply append_inj_length in Heq; [|rewrite !padStart_two by lia; reflexivity].
  destruct Heq as [Hhh Hmin].
  apply (f_equal readNat) in Hmm, Hdd, Hyyyy, Hhh, Hmin.
  rewrite !readNat_padStart in Hmm, Hdd, Hhh, Hmin.
  rewrite !readNat_String in Hyyyy.
  destruct a as [am ad ay ah ai], b as [bm bd by_ bh bi]. simpl in *.
  inversion Hmm. inversion Hdd. inversion Hyyyy. inversion Hhh. inversion Hmin.
  f_equal; lia.
Qed.

(** ** The plugin's hooks *)

Section Hooks.

Variable has_shortcode : string -> string -> bool.
Variable esc_url : string -> string.
Variable F3DS_ROF_PLUGIN_URL : string.

Lemma current_page_answer (wp : WordPress) (r : Request) :
  fst (current_page_has_shortcode has_shortcode wp r)
  = (page_has_shortcode r || carriesShortcode has_shortcode wp)%bool
  /\ page_has_shortcode (snd (current_page_has_shortcode has_shortcode wp r))
     = fst (current_page_has_shortcode has_shortcode wp r)
  /\ headers (snd (current_page_has_shortcode has_shortcode wp r)) = headers r
  /\ (fst (current_page_has_shortcode has_shortcode wp r) = false ->
      snd (current_page_has_shortcode has_shortcode wp r) = r).
Proof.
  unfold current_page_has_shortcode, carriesShortcode.
  destruct (page_has_shortcode r) eqn:Hmemo; simpl.
  - rewrite ?Hmemo. repeat split; congruence.
  - destruct (is_singular wp); simpl.
    + destruct (post wp) as [content|]; simpl.
      * destruct (has_shortcode content "f3ds_rof"); simpl; repeat split;
          congruence.
      * repeat split; congruence.
    + repeat split; congruence.
Qed.

(** X17.  The shortcode check remembers a positive answer only: once it has
    answered yes, every later check answers yes without consulting WordPress and
    changes nothing; a negative answer leaves the request as it was, so the next
    check asks WordPress again. *)
Theorem shortcode_check_is_sticky (wp wp' : WordPress) (r : Request) :
  (fst (current_page_has_shortcode has_shortcode wp r) = true ->
   current_page_has_shortcode has_shortcode wp'
     (snd (current_page_has_shortcode has_shortcode wp r))
   = (true, snd (current_page_has_shortcode has_shortcode wp r)))
  /\ (fst (current_page_has_shortcode has_shortcode wp r) = false ->
      current_page_has_shortcode has_shortcode wp'
        (snd (current_page_has_shortcode has_shortcode wp r))
      = current_page_has_shortcode has_shortcode wp' r).
Proof.
  destruct (current_page_answer wp r) as (_ & Hmemo & _ & Hsame).
  split.
  - intro Hyes. rewrite Hyes in Hmemo.
    unfold current_page_has_shortcode at 1. rewrite Hmemo. reflexivity.
  - intro Hno. rewrite (Hsame Hno). reflexivity.
Qed.

Lemma runHook_idle (wp : WordPress) (h : Hook) (r : Request) :
  page_has_shortcode r = false -> carriesShortcode has_shortcode wp = false ->
  runHook has_shortcode esc_url F3DS_ROF_PLUGIN_URL wp h r = r.
Proof.
  intros Hmemo Hpage.
  destruct (current_page_answer wp r) as (Hfst & _ & _ & Hsame).
  rewrite Hmemo, Hpage in Hfst. simpl in Hfst. specialize (Hsame Hfst).
  destruct h; simpl;
    unfold send_isolation_headers, inject_coi_serviceworker, enqueue_assets;
    destruct (current_page_has_shortcode has_shortcode wp r) as [found r1];
    simpl in Hfst, Hsame; subst found r1; reflexivity.
Qed.

Lemma runHook_headers (wp : WordPress) (h : Hook) (r : Request) :
  headers_sent wp = true ->
  headers (runHook has_shortcode esc_url F3DS_ROF_PLUGIN_URL wp h r) = headers r.
Proof.
  intro Hsent.
  destruct (current_page_answer wp r) as (_ & _ & Hhead & _).
  destruct h; simpl;
    unfold send_isolation_headers, inject_coi_serviceworker, enqueue_assets;
    destruct (current_page_has_shortcode has_shortcode wp r) as [found r1];
    simpl in Hhead; destruct found; simpl; rewrite ?Hsent; exact Hhead.
Qed.

(** X18.  On a page without the shortcode the plugin's hooks emit nothing: in
    whatever order and number WordPress fires them, no header, script tag, style
    or script is added and the request is left as it was.  And once output has
    started ([headers_sent()]), no hook calls [header()], shortcode or not. *)
Theorem hooks_are_gated (wp : WordPress) (hs : list Hook) (r : Request) :
  (page_has_shortcode r = false ->
   carriesShortcode has_shortcode wp = false ->
   runHooks has_shortcode esc_url F3DS_ROF_PLUGIN_URL wp hs r = r)
  /\ (headers_sent wp = true ->
      headers (runHooks has_shortcode esc_url F3DS_ROF_PLUGIN_URL wp hs r)
      = headers r).
Proof.
  split.
  - intros Hmemo Hpage. induction hs as [|h hs IH]; [reflexivity|].
    unfold runHooks in *. simpl. rewrite (runHook_idle wp h r Hmemo Hpage).
    exact IH.
  - intro Hsent. revert r. induction hs as [|h hs IH]; intro r; [reflexivity|].
    unfold runHooks in *. simpl. rewrite IH. apply runHook_headers. exact Hsent.
Qed.

End Hooks.

(** ** Order of clicks *)

Lemma increasing_ext (l1 l2 : list Q) :
  increasing l1 -> increasing l2 ->
  (forall y, In y l1 <-> In y l2) -> l1 = l2.
Proof.
  revert l2. induction l1 as [|a l1 IH]; intros [|b l2] H1 H2 Hmem.
  - reflexivity.
  - exfalso. apply (proj2 (Hmem b)). left. reflexivity.
  - exfalso. apply (proj1 (Hmem a)). left. reflexivity.
  - apply increasing_cons in H1. destruct H1 as [H1 Ha].
    apply increasing_cons in H2. destruct H2 as [H2 Hb].
    rewrite Forall_forall in Ha, Hb.
    assert (Hab : a = b).
    { destruct (proj1 (Hmem a) (or_introl eq_refl)) as [Hba | Hin];
        [symmetry; exact Hba|].
      destruct (proj2 (Hmem b) (or_introl eq_refl)) as [Heq | Hin'];
        [exact Heq|].
      exfalso. pose proof (Ha b Hin'). pose proof (Hb a Hin). lra. }
    subst b. f_equal. apply IH; [exact H1 | exact H2|].
    intro y. split; intro Hy.
    + destruct (proj1 (Hmem y) (or_intror Hy)) as [Heq | Hin]; [|exact Hin].
      exfalso. subst y. pose proof (Ha a Hy). lra.
    + destruct (proj2 (Hmem y) (or_intror Hy)) as [Heq | Hin]; [|exact Hin].
      exfalso. subst y. pose proof (Hb a Hy). lra.
Qed.

(** The members of the edited shot times. *)
Lemma edit_membership (S : list Q) (t : Q) :
  increasing S ->
  forall y,
    In y (editedTimes t S)
    <-> (In y S /\ ~ firstWithin t S y)
        \/ (y = t /\ Forall (fun x => ~ within t x) S).
Proof.
  intros Hinc y.
  destruct (edit_increasing S t Hinc)
    as [(l1 & x & l2 & HS & Hx & Hout & Hts)
       | (Hout & l1 & l2 & HS & Hts & H1 & H2)]; rewrite Hts.
  - rewrite HS in Hinc.
    destruct (sorted_before _ _ _ _ Hinc) as [Hb1 Hb2].
    rewrite Forall_forall in Hb1, Hb2, Hout.
    assert (Hfirst : forall z, firstWithin t S z <-> z = x).
    { intro z. split.
      - intros (Hin & Hw & Hmin). rewrite HS in Hin.
        apply in_app_iff in Hin. destruct Hin as [Hin | [Heq | Hin]].
        + exfalso. exact (Hout z Hin Hw).
        + symmetry. exact Heq.
        + exfalso. assert (Hzx : z <= x).
          { apply Hmin; [rewrite HS; apply in_elt | exact Hx]. }
          pose proof (Hb2 z Hin). lra.
      - intros ->. split; [rewrite HS; apply in_elt|]. split; [exact Hx|].
        intros z Hin Hw. rewrite HS in Hin.
        apply in_app_iff in Hin. destruct Hin as [Hin | [Heq | Hin]].
        + exfalso. exact (Hout z Hin Hw).
        + subst z. lra.
        + pose proof (Hb2 z Hin). lra. }
    rewrite Hfirst. rewrite HS, !in_app_iff. simpl. split.
    + intros [Hin | Hin].
      * left. split; [left; exact Hin|]. intros ->.
        pose proof (Hb1 x Hin). lra.
      * left. split; [right; right; exact Hin|]. intros ->.
        pose proof (Hb2 x Hin). lra.
    + intros [[[Hin | [Heq | Hin]] Hne] | [_ Hnone]].
      * left. exact Hin.
      * exfalso. apply Hne. symmetry. exact Heq.
      * right. exact Hin.
      * exfalso. rewrite Forall_forall in Hnone.
        apply (Hnone x); [apply in_elt | exact Hx].
  - rewrite (in_app_iff l1 (t :: l2)). simpl.
    assert (Hnofirst : ~ firstWithin t S y).
    { intros (Hin & Hw & _). rewrite Forall_forall in Hout.
      exact (Hout y Hin Hw). }
    split.
    + intros [Hin | [Heq | Hin]].
      * left. split; [rewrite HS; apply in_app_iff; left; exact Hin | exact Hnofirst].
      * right. split; [symmetry; exact Heq | exact Hout].
      * left. split; [rewrite HS; apply in_app_iff; right; exact Hin | exact Hnofirst].
    + intros [[Hin _] | [Heq _]].
      * rewrite HS in Hin. apply in_app_iff in Hin. tauto.
      * right. left. symmetry. exact Heq.
Qed.

Lemma far_windows (t1 t2 z : Q) :
  2#100 <= Qabs (t1 - t2) -> within t1 z -> within t2 z -> False.
Proof.
  intros Hfar H1 H2. apply within_window in H1. apply within_window in H2.
  destruct (Qlt_le_dec (t1 - t2) 0) as [Hneg | Hpos].
  - rewrite Qabs_neg in Hfar by lra. lra.
  - rewrite Qabs_pos in Hfar by lra. lra.
Qed.

Lemma far_click (t1 t2 : Q) : 2#100 <= Qabs (t1 - t2) -> ~ within t2 t1.
Proof.
  intros Hfar Hw. apply within_window in Hw.
  destruct (Qlt_le_dec (t1 - t2) 0) as [Hneg | Hpos].
  - rewrite Qabs_neg in Hfar by lra. lra.
  - rewrite Qabs_pos in Hfar by lra. lra.
Qed.

(** A click far from [t2] leaves the shots around [t2] as they were. *)
Lemma far_members (S : list Q) (t1 t2 z : Q) :
  increasing S -> 2#100 <= Qabs (t1 - t2) -> within t2 z ->
  (In z (editedTimes t1 S) <-> In z S).
Proof.
  intros Hinc Hfar Hz.
  rewrite (edit_membership S t1 Hinc z). split.
  - intros [[Hin _] | [Heq _]]; [exact Hin|].
    exfalso. subst z. exact (far_click t1 t2 Hfar Hz).
  - intro Hin. left. split; [exact Hin|].
    intros (_ & Hw & _). exact (far_windows t1 t2 z Hfar Hw Hz).
Qed.

Lemma far_first (S : list Q) (t1 t2 y : Q) :
  increasing S -> 2#100 <= Qabs (t1 - t2) ->
  (firstWithin t2 (editedTimes t1 S) y <-> firstWithin t2 S y).
Proof.
  intros Hinc Hfar. unfold firstWithin. split.
  - intros (Hin & Hw & Hmin). split; [|split; [exact Hw|]].
    + apply (far_members S t1 t2 y Hinc Hfar Hw). exact Hin.
    + intros z Hz Hwz. apply Hmin; [|exact Hwz].
      apply (far_members S t1 t2 z Hinc Hfar Hwz). exact Hz.
  - intros (Hin & Hw & Hmin). split; [|split; [exact Hw|]].
    + apply (far_members S t1 t2 y Hinc Hfar Hw). exact Hin.
    + intros z Hz Hwz. apply Hmin; [|exact Hwz].
      apply (far_members S t1 t2 z Hinc Hfar Hwz). exact Hz.
Qed.

Lemma far_none (S : list Q) (t1 t2 : Q) :
  increasing S -> 2#100 <= Qabs (t1 - t2) ->
  (Forall (fun x => ~ within t2 x) (editedTimes t1 S)
   <-> Forall (fun x => ~ within t2 x) S).
Proof.
  intros Hinc Hfar. rewrite !Forall_forall. split; intros Hall z Hz Hw.
  - apply (Hall z); [|exact Hw].
    apply (far_members S t1 t2 z Hinc Hfar Hw). exact Hz.
  - apply (Hall z); [|exact Hw].
    apply (far_members S t1 t2 z Hinc Hfar Hw). exact Hz.
Qed.

Lemma Qabs_swap (a b : Q) : Qabs (a - b) == Qabs (b - a).
Proof.
  setoid_replace (b - a) with (- (a - b)) by ring.
  symmetry. apply Qabs_opp.
Qed.

Lemma edits_commute (S : list Q) (t1 t2 : Q) :
  increasing S -> 2#100 <= Qabs (t1 - t2) ->
  editedTimes t2 (editedTimes t1 S) = editedTimes t1 (editedTimes t2 S).
Proof.
  intros Hinc Hfar.
  assert (Hfar' : 2#100 <= Qabs (t2 - t1)) by (rewrite Qabs_swap; exact Hfar).
  assert (Hi1 : increasing (editedTimes t1 S)) by apply (edit_keeps_increasing S t1 Hinc).
  assert (Hi2 : increasing (editedTimes t2 S)) by apply (edit_keeps_increasing S t2 Hinc).
  apply increasing_ext.
  - apply (edit_keeps_increasing _ t2 Hi1).
  - apply (edit_keeps_increasing _ t1 Hi2).
  - intro y.
    rewrite (edit_membership _ t2 Hi1 y), (edit_membership _ t1 Hi2 y).
    rewrite (far_first S t1 t2 y Hinc Hfar), (far_first S t2 t1 y Hinc Hfar').
    rewrite (far_none S t1 t2 Hinc Hfar), (far_none S t2 t1 Hinc Hfar').
    rewrite (edit_membership S t1 Hinc y), (edit_membership S t2 Hinc y).
    assert (Hf1 : firstWithin t1 S y -> within t1 y) by (intros (_ & Hw & _); exact Hw).
    assert (Hf2 : firstWithin t2 S y -> within t2 y) by (intros (_ & Hw & _); exact Hw).
    pose proof (far_click t1 t2 Hfar) as Hc1.
    pose proof (far_click t2 t1 Hfar') as Hc2.
    split.
    + intros [[[[Hin Hn1] | [Heq Hnone]] Hn2] | [Heq Hnone]].
      * left. split; [left; split; assumption | exact Hn1].
      * right. split; assumption.
      * left. split; [right; split; assumption|].
        intro Hfirst. subst y. exact (Hc2 (Hf1 Hfirst)).
    + intros [[[[Hin Hn2] | [Heq Hnone]] Hn1] | [Heq Hnone]].
      * left. split; [left; split; assumption | exact Hn2].
      * right. split; assumption.
      * left. split; [right; split; assumption|].
        intro Hfirst. subst y. exact (Hc1 (Hf2 Hfirst)).
Qed.

Lemma apart_increasing (l : list Q) : apart l -> increasing l.
Proof.
  induction 1 as [|a l Hl IH Ha]; constructor; [exact IH|].
  eapply Forall_impl; [|exact Ha]. cbv beta. intros b [Hb _]. exact Hb.
Qed.

Lemma edit_keeps_apart (S : list Q) (t : Q) :
  apart S -> apart (editedTimes t S).
Proof.
  intro Hap. pose proof (apart_increasing S Hap) as Hinc.
  destruct (edit_increasing S t Hinc)
    as [(l1 & x & l2 & HS & _ & _ & ->) | (Hout & l1 & l2 & HS & -> & H1 & H2)].
  - rewrite HS in Hap. apply (sorted_without _ _ _ _ Hap).
  - rewrite HS in Hap, Hout. apply Forall_app in Hout.
    destruct Hout as [Hout1 Hout2]. rewrite Forall_forall in Hout1, Hout2, H1, H2.
    apply sorted_with; [exact Hap | |]; apply Forall_forall; intros y Hy.
    + split; [exact (H1 y Hy)|]. intro Hw. apply (Hout1 y Hy).
      apply within_sym. exact Hw.
    + split; [exact (H2 y Hy) | exact (Hout2 y Hy)].
Qed.

(** Times that pass no test of one another are more than the double below
    [0.01] apart. *)
Lemma apart_gaps (l : list Q) :
  apart l -> StronglySorted (fun a b => a + belowTolerance < b) l.
Proof.
  induction 1 as [|a l Hl IH Ha]; constructor; [exact IH|].
  eapply Forall_impl; [|exact Ha]. cbv beta. intros b [Hlt Hout].
  pose proof belowTolerance_value as Hbel.
  destruct (outside_window a b Hout) as [Hfar | Hfar]; [exfalso; lra | exact Hfar].
Qed.

Section Sequences.

Context `{Platform}.

Lemma onPeakToggle_times (s : Session) (d : Detector) (cur : Results) (t : Q) :
  detector s = Some d -> currentResults s = Some cur ->
  exists d' res',
    detector (onPeakToggle t s) = Some d'
    /\ currentResults (onPeakToggle t s) = Some res'
    /\ shotTimes d' = editedTimes t (shotTimes d)
    /\ sampleRate d' = sampleRate d
    /\ peaks res' = peaksOf (sampleRate d) (editedTimes t (shotTimes d)).
Proof.
  intros Hd Hc. rewrite (onPeakToggle_run s d cur t Hd Hc).
  eexists. eexists. repeat split.
Qed.

(** X19.  Clicks at times at least 0.02 s apart can be made in either order: on
    strictly increasing shot times both orders leave the same shot times and the
    same sample indices. *)
Theorem distant_clicks_commute (s : Session) (d : Detector) (cur : Results)
    (t1 t2 : Q) :
  detector s = Some d -> currentResults s = Some cur ->
  increasing (shotTimes d) -> 2#100 <= Qabs (t1 - t2) ->
  exists da db ra rb,
    detector (onPeakToggle t2 (onPeakToggle t1 s)) = Some da
    /\ detector (onPeakToggle t1 (onPeakToggle t2 s)) = Some db
    /\ currentResults (onPeakToggle t2 (onPeakToggle t1 s)) = Some ra
    /\ currentResults (onPeakToggle t1 (onPeakToggle t2 s)) = Some rb
    /\ shotTimes da = shotTimes db
    /\ peaks ra = peaks rb.
Proof.
  intros Hd Hc Hinc Hfar.
  destruct (onPeakToggle_times s d cur t1 Hd Hc)
    as (d1 & c1 & Hd1 & Hc1 & Ht1 & Hr1 & _).
  destruct (onPeakToggle_times s d cur t2 Hd Hc)
    as (d2 & c2 & Hd2 & Hc2 & Ht2 & Hr2 & _).
  destruct (onPeakToggle_times _ d1 c1 t2 Hd1 Hc1)
    as (da & ra & Hda & Hra & Hta & _ & Hpa).
  destruct (onPeakToggle_times _ d2 c2 t1 Hd2 Hc2)
    as (db & rb & Hdb & Hrb & Htb & _ & Hpb).
  exists da, db, ra, rb.
  split; [exact Hda|]. split; [exact Hdb|]. split; [exact Hra|].
  split; [exact Hrb|].
  rewrite Hta, Htb, Hpa, Hpb, Ht1, Ht2, Hr1, Hr2.
  rewrite (edits_commute _ t1 t2 Hinc Hfar). split; reflexivity.
Qed.

(** X20.  Clicks never bring two shots within the tolerance of each other:
    when the shot times are increasing and none passes the tolerance test of a
    click on an earlier one, the same holds after any sequence of clicks, and any
    two shots are then more than the double below [0.01] apart. *)
Theorem clicks_keep_shots_apart (clicks : list Q) (s : Session) (d : Detector)
    (cur : Results) :
  detector s = Some d -> currentResults s = Some cur ->
  apart (shotTimes d) ->
  exists d',
    detector (toggles clicks s) = Some d'
    /\ apart (shotTimes d')
    /\ StronglySorted (fun a b => a + belowTolerance < b) (shotTimes d').
Proof.
  revert s d cur. induction clicks as [|t clicks IH]; intros s d cur Hd Hc Hap.
  - exists d. split; [exact Hd|]. split; [exact Hap | apply apart_gaps; exact Hap].
  - destruct (onPeakToggle_times s d cur t Hd Hc)
      as (d1 & c1 & Hd1 & Hc1 & Ht1 & _).
    change (toggles (t :: clicks) s) with (toggles clicks (onPeakToggle t s)).
    apply (IH _ d1 c1 Hd1 Hc1). rewrite Ht1. apply edit_keeps_apart. exact Hap.
Qed.

End Sequences.

(** ** Clicks on the plotted points of a recording *)




Lemma Math_round_at (x : Q) (k : Z) :
  Qabs (x - inject_Z k) < 1#2 -> Math_round x = k.
Proof.
  intro Hnear. apply Qabs_Qlt_condition in Hnear. destruct Hnear as [Hlo Hhi].
  destruct (Math_round_near x) as [H1 H2].
  assert (Ha : inject_Z (Math_round x) < inject_Z (k + 1)).
  { rewrite inject_Z_plus. change (inject_Z 1) with 1. lra. }
  assert (Hb : inject_Z k < inject_Z (Math_round x + 1)).
  { rewrite inject_Z_plus. change (inject_Z 1) with 1. lra. }
  rewrite <- Zlt_Qlt in Ha, Hb. lia.
Qed.

(** Entry [i] of the time axis of a recording of at most [2 ^ 20] samples, at
    1 Hz to [2 ^ 20] Hz: a finite number whose product with the rate is within
    3/16 of [i]. *)
Lemma time_entry (i : nat) (rate : Q) :
  1 <= rate -> rate <= 2 ^ 20 -> (Z.of_nat i <= 2 ^ 20)%Z ->
  exists t,
    bindn (fdiv (ofNat i) rate) Math_fround = Some t
    /\ t = roundFloat 24 (-149) (double (ofNat i / rate))
    /\ Qabs (t * rate - ofNat i) <= 3#16.
Proof.
  intros Hlo Hhi Hi.
  assert (Hi0 : 0 <= ofNat i).
  { unfold ofNat. change 0 with (inject_Z 0). rewrite <- Zle_Qle. lia. }
  assert (Hi1 : ofNat i <= 2 ^ 20).
  { unfold ofNat. change (2 ^ 20) with (inject_Z (2 ^ 20)).
    rewrite <- Zle_Qle. exact Hi. }
  set (q := ofNat i / rate).
  assert (Hq : q * rate == ofNat i) by (unfold q; field; lra).
  assert (Hq0 : 0 <= q) by nra.
  assert (Hq1 : q <= 2 ^ 20) by nra.
  assert (Hd0 : 0 <= double q).
  { rewrite <- (double_zero 0) by reflexivity. apply double_mono. exact Hq0. }
  assert (Hd1 : double q <= 2 ^ 20).
  { assert (Hfix : double (2 ^ 20) == 2 ^ 20) by (vm_compute; reflexivity).
    rewrite <- Hfix. apply double_mono. exact Hq1. }
  set (t := roundFloat 24 (-149) (double q)).
  assert (Ht0 : 0 <= t).
  { assert (Hz : roundFloat 24 (-149) 0 == 0) by (vm_compute; reflexivity).
    rewrite <- Hz. apply roundFloat_mono; [lia | exact Hd0]. }
  assert (Ht1 : t <= 2 ^ 20).
  { assert (Hfix : roundFloat 24 (-149) (2 ^ 20) == 2 ^ 20)
      by (vm_compute; reflexivity).
    rewrite <- Hfix. apply roundFloat_mono; [lia | exact Hd1]. }
  assert (Hbig : 2 ^ 20 < 2 ^ 128) by (vm_compute; reflexivity).
  assert (Hhuge : 2 ^ 20 < 2 ^ 1024) by (vm_compute; reflexivity).
  exists t. split; [|split; [reflexivity|]].
  - unfold fdiv.
    assert (Hr : Qeq_bool rate 0 = false).
    { destruct (Qeq_bool rate 0) eqn:E; [|reflexivity].
      apply Qeq_bool_iff in E. lra. }
    rewrite Hr.
    assert (Ha : Qltb (Qabs (ofNat i)) (2 ^ 1024) = true).
    { apply Qltb_lt. rewrite Qabs_pos by exact Hi0. lra. }
    rewrite Ha. fold q.
    assert (Hb : Qltb (Qabs (double q)) (2 ^ 1024) = true).
    { apply Qltb_lt. rewrite Qabs_pos by exact Hd0. lra. }
    rewrite Hb. cbn [bindn]. unfold Math_fround. fold t.
    assert (Hc : Qltb (Qabs t) (2 ^ 128) = true).
    { apply Qltb_lt. rewrite Qabs_pos by exact Ht0. lra. }
    rewrite Hc. reflexivity.
  - pose proof (single_of_double_error q) as Herr. fold t in Herr.
    rewrite (Qabs_pos q) in Herr by exact Hq0.
    assert (H23 : 2 ^ (-23) == 1 # 8388608) by (vm_compute; reflexivity).
    assert (H20 : 2 ^ 20 == 1048576) by (vm_compute; reflexivity).
    assert (Hc0 : 0 <= 2 ^ (-149)) by (vm_compute; discriminate).
    assert (Hc1 : 2 ^ (-149) * 2 ^ 20 <= 1#16) by (vm_compute; discriminate).
    rewrite H23 in Herr. rewrite H20 in *.
    set (c := 2 ^ (-149)) in *.
    apply Qabs_Qle_condition in Herr. destruct Herr as [He1 He2].
    apply Qabs_Qle_condition. split; nra.
Qed.

(** X4.  On a recording of at most [2 ^ 20] samples, at a sample rate from
    1 Hz to [2 ^ 20] Hz, the time axis names its samples: entry [i] of
    [createTimeArray] is a finite number [t] with
    [Math.round(t * sampleRate) = i], so a call of [onPeakToggle] with the time
    of the waveform point of sample [i], when no shot passes the tolerance test,
    adds a shot with sample index [i]. *)
Theorem plotted_time_names_its_sample `{Platform} (s : Session) (d : Detector)
    (cur : Results) (i : nat) :
  detector s = Some d -> currentResults s = Some cur ->
  1 <= sampleRate d -> sampleRate d <= 2 ^ 20 ->
  (Z.of_nat (length (audioData d)) <= 2 ^ 20)%Z ->
  (i < length (audioData d))%nat ->
  exists t,
    nth_error (createTimeArray (length (audioData d)) (sampleRate d)) i
    = Some (Some t)
    /\ Math_round (fmul t (sampleRate d)) = Z.of_nat i
    /\ (Forall (fun x => ~ within t x) (shotTimes d) ->
        exists res',
          currentResults (onPeakToggle t s) = Some res'
          /\ In (Z.of_nat i) (peaks res')
          /\ length (peaks res') = S (length (shotTimes d))).
Proof.
  intros Hd Hc Hlo Hhi Hlen Hi.
  assert (Hi' : (Z.of_nat i <= 2 ^ 20)%Z) by lia.
  destruct (time_entry i (sampleRate d) Hlo Hhi Hi') as (t & Ht & _ & Herr).
  exists t. split; [rewrite (createTimeArray_nth _ _ _ Hi), Ht; reflexivity|].
  assert (Hidx : Math_round (fmul t (sampleRate d)) = Z.of_nat i).
  { apply Math_round_at. fold (ofNat i).
    assert (Hi1 : ofNat i <= 2 ^ 20).
    { unfold ofNat. change (2 ^ 20) with (inject_Z (2 ^ 20)).
      rewrite <- Zle_Qle. exact Hi'. }
    assert (Hi0 : 0 <= ofNat i).
    { unfold ofNat. change 0 with (inject_Z 0). rewrite <- Zle_Qle. lia. }
    assert (H20 : 2 ^ 20 == 1048576) by (vm_compute; reflexivity).
    assert (H50 : 2 ^ 50 == 1125899906842624) by (vm_compute; reflexivity).
    assert (Hprod : Qabs (t * sampleRate d) <= 2 ^ 50).
    { apply Qabs_Qle_condition in Herr. apply Qabs_Qle_condition. lra. }
    pose proof (fmul_error t (sampleRate d) Hprod) as Hm.
    apply Qabs_Qle_condition in Herr, Hm. apply Qabs_Qlt_condition. lra. }
  split; [exact Hidx|].
  intro Hout.
  destruct (onPeakToggle_times s d cur t Hd Hc)
    as (d' & res' & _ & Hc' & _ & _ & Hp).
  exists res'. split; [exact Hc'|]. rewrite Hp.
  destruct (edit_cases (shotTimes d) t)
    as [(l1 & x & l2 & HS & Hx & _) | (_ & Hts)].
  - exfalso. rewrite HS in Hout. apply Forall_elt in Hout. exact (Hout Hx).
  - rewrite Hts. unfold peaksOf. split.
    + rewrite <- Hidx.
      apply (in_map (fun u => Math_round (fmul u (sampleRate d)))).
      apply sort_In. unfold push. apply in_app_iff. right. left. reflexivity.
    + rewrite length_map, sort_length. unfold push. rewrite length_app.
      simpl. lia.
Qed.



(** * The statements at concrete sessions *)

Ltac closed_fact :=
  vm_compute;
  first [reflexivity | discriminate
        | (let Hq := fresh "Hq" in intro Hq; discriminate Hq)].


(** ** The claims at concrete sessions *)



Lemma toggle_twice_restores_witness :
  increasing [1#4; 3#4] /\ Forall (fun x => ~ within (1#2) x) [1#4; 3#4]
  /\ exists d2,
       detector (@onPeakToggle bench (1#2)
                   (@onPeakToggle bench (1#2)
                      (benchSession 100 100 [1#4; 3#4]))) = Some d2
       /\ shotTimes d2 = [1#4; 3#4].
Proof.
  assert (Hinc : increasing [1#4; 3#4]).
  { repeat constructor. }
  assert (Hout : Forall (fun x => ~ within (1#2) x) [1#4; 3#4]).
  { repeat constructor; closed_fact. }
  split; [exact Hinc|]. split; [exact Hout|].
  destruct (@toggle_twice_restores bench
              (benchSession 100 100 [1#4; 3#4]) _ _ (1#2)
              eq_refl eq_refl Hinc Hout)
    as (d1 & d2 & res2 & _ & _ & _ & Hd2 & _ & Hts & _).
  exists d2. split; [exact Hd2 | exact Hts].
Defined.

Lemma invalid_configuration_is_surfaced_witness :
  outOfRange (mkInputs 6 (5#100) (2#10) (2#1000) (1#10) 5)
  /\ @analyzeRateOfFire bench [0; 2; 0]
       (@mkSession bench (mkInputs 6 (5#100) (2#10) (2#1000) (1#10) 5)
          EmptyString None None None None None None false)
     = (@mkSession bench (mkInputs 6 (5#100) (2#10) (2#1000) (1#10) 5)
          EmptyString None None None None None None false,
        Some InvalidConfiguration).
Proof.
  assert (Hout : outOfRange (mkInputs 6 (5#100) (2#10) (2#1000) (1#10) 5)).
  { left. cbn [peakThresholdInput]. intros [_ Hhi]. revert Hhi. vm_compute.
    intro Hhi. apply Hhi. reflexivity. }
  split; [exact Hout|].
  exact (proj1 (@invalid_configuration_is_surfaced bench [0; 2; 0]
                  (@mkSession bench (mkInputs 6 (5#100) (2#10) (2#1000) (1#10) 5)
                     EmptyString None None None None None None false)
                  Hout)).
Defined.



Lemma toggle_recomputes_bursts_and_summary_witness :
  exists d' res',
    detector (@onPeakToggle bench (1#2) (benchSession 100 100 [1#4; 3#4]))
    = Some d'
    /\ currentResults
         (@onPeakToggle bench (1#2) (benchSession 100 100 [1#4; 3#4]))
       = Some res'
    /\ length (shotTimes d') = 3%nat
    /\ resBursts res' = @calculateRates bench d'
    /\ summary res' = generateSummary (@calculateRates bench d').
Proof.
  destruct (@toggle_recomputes_bursts_and_summary bench
              (benchSession 100 100 [1#4; 3#4]) _ _ (1#2) eq_refl eq_refl)
    as (d' & res' & Hd & Hc & Hcase & _ & _ & Hb & Hs & _).
  exists d', res'. split; [exact Hd|]. split; [exact Hc|].
  split; [|split; [exact Hb | exact Hs]].
  destruct Hcase as [(l1 & x & l2 & HS & Hx & _) | (_ & Hlen & _)].
  - exfalso. cbn [shotTimes] in HS.
    assert (Hall : Forall (fun y => ~ within (1#2) y) [1#4; 3#4]).
    { repeat constructor; closed_fact. }
    rewrite HS in Hall. apply Forall_app in Hall. destruct Hall as [_ Hall].
    apply Forall_inv in Hall. exact (Hall Hx).
  - exact Hlen.
Defined.



Lemma downsample_keeps_original_points_witness :
  length [1; 2; 3; 4; 5; 6; 7]%nat = length [10; 20; 30; 40; 50; 60; 70]%nat
  /\ (0 < 3)%nat /\ (3 < 7)%nat
  /\ map Some
       (fst (downsample [1; 2; 3; 4; 5; 6; 7]%nat
               [10; 20; 30; 40; 50; 60; 70]%nat 3))
     = map (nth_error [1; 2; 3; 4; 5; 6; 7]%nat) (strided 7 (7 / 3)).
Proof.
  assert (Hpos : (0 < 3)%nat) by lia.
  assert (Hbig : (3 < 7)%nat) by lia.
  split; [reflexivity|]. split; [exact Hpos|]. split; [exact Hbig|].
  destruct (@downsample_keeps_original_points nat nat
              [1; 2; 3; 4; 5; 6; 7]%nat [10; 20; 30; 40; 50; 60; 70]%nat 3%nat
              eq_refl Hpos) as [_ Hstrided].
  destruct (Hstrided Hbig) as (_ & _ & Hdata & _).
  exact Hdata.
Defined.

Lemma tolerance_is_fixed_and_strict_witness :
  In 0 [0] /\ Math_abs (fsub 0 tolerance) == tolerance
  /\ exists d',
       detector (@onPeakToggle bench tolerance (benchSession 100 100 [0]))
       = Some d'
       /\ In 0 (shotTimes d') /\ In tolerance (shotTimes d')
       /\ length (shotTimes d') = 2%nat.
Proof.
  assert (Hin : In 0 [0]) by (left; reflexivity).
  assert (Hdist : Math_abs (fsub 0 tolerance) == tolerance) by closed_fact.
  split; [exact Hin|]. split; [exact Hdist|].
  destruct (@tolerance_is_fixed_and_strict bench (benchSession 100 100 [0]) _ _
              tolerance 0 eq_refl eq_refl Hin Hdist)
    as (d' & Hd & Hnot & Hkeep & Hadd & _).
  exists d'. split; [exact Hd|]. split; [exact Hkeep|].
  apply Hadd. constructor; [exact Hnot | constructor].
Defined.

(** ** The further properties at concrete inputs *)

Lemma click_changes_one_shot_witness :
  exists res',
    currentResults (@onPeakToggle bench (1#2) (benchSession 100 100 [1#4; 3#4]))
    = Some res'
    /\ Sorted Z.le (peaks res').
Proof.
  destruct (@click_changes_one_shot bench (benchSession 100 100 [1#4; 3#4])
              _ _ (1#2) eq_refl eq_refl)
    as (res' & Hc & _ & Hsorted & _).
  exists res'. split; [exact Hc|].
  apply Hsorted; [discriminate | repeat constructor].
Defined.

Lemma two_clicks_move_a_shot_witness :
  within (65#256) (1#4)
  /\ Forall (fun y => ~ within (65#256) y) ([] ++ [3#4])
  /\ exists d2,
       detector (@onPeakToggle bench (65#256)
                   (@onPeakToggle bench (65#256)
                      (benchSession 100 100 [1#4; 3#4]))) = Some d2
       /\ shotTimes d2 = [65#256; 3#4].
Proof.
  assert (Hinc : increasing [1#4; 3#4]) by (repeat constructor).
  assert (Hx : within (65#256) (1#4)) by closed_fact.
  assert (Hout : Forall (fun y => ~ within (65#256) y) ([] ++ [3#4])).
  { repeat constructor. closed_fact. }
  split; [exact Hx|]. split; [exact Hout|].
  destruct (@two_clicks_move_a_shot bench (benchSession 100 100 [1#4; 3#4])
              _ _ (65#256) (1#4) [] [3#4]
              eq_refl eq_refl eq_refl Hinc Hx Hout)
    as (d2 & res2 & Hd2 & _ & Hts & _).
  exists d2. split; [exact Hd2 | exact Hts].
Defined.

Lemma clicks_need_an_analysis_witness :
  detector benchEmpty = None
  /\ @onChartClick bench (Some [JsNumber (1#4)]) benchEmpty = benchEmpty.
Proof.
  split; [reflexivity|].
  exact (proj1 (@clicks_need_an_analysis bench (Some [JsNumber (1#4)])
                  benchEmpty (or_introl eq_refl))).
Defined.

Lemma reanalysis_discards_edits_witness :
  currentFile (@handleFile bench (Some [0; 2; 0; 0; 2]) benchEmpty)
  = Some [0; 2; 0; 0; 2]
  /\ @reanalyze bench
       (@toggles bench [1#32; 1#8]
          (@handleFile bench (Some [0; 2; 0; 0; 2]) benchEmpty))
     = @reanalyze bench (@handleFile bench (Some [0; 2; 0; 0; 2]) benchEmpty).
Proof.
  assert (Hfile : currentFile (@handleFile bench (Some [0; 2; 0; 0; 2]) benchEmpty)
                  = Some [0; 2; 0; 0; 2]) by (vm_compute; reflexivity).
  split; [exact Hfile|].
  apply (@reanalysis_discards_edits bench [0; 2; 0; 0; 2] [1#32; 1#8] _ Hfile).
  vm_compute. reflexivity.
Defined.

Lemma handleFile_starts_afresh_witness :
  @handleFile bench (Some [0; 2; 0]) (benchSession 100 100 [1#4])
  = @handleFile bench (Some [0; 2; 0])
      (@mkSession bench benchInputs EmptyString None None None None None None
         false).
Proof.
  apply (@handleFile_starts_afresh bench); reflexivity.
Defined.

Lemma render_needs_every_burst_witness :
  (length (bursts benchDetector) <= length (resBursts benchResults))%nat
  /\ render benchDetector benchResults <> None.
Proof.
  assert (Hle : (length (bursts benchDetector)
                 <= length (resBursts benchResults))%nat) by (simpl; lia).
  split; [exact Hle|].
  exact (proj2 (proj1 (render_needs_every_burst benchDetector benchResults))
           Hle).
Defined.

Lemma burst_colours_agree_witness :
  exists plot sh,
    render benchDetector benchResults = Some plot
    /\ nth_error (shapes plot) 0 = Some sh
    /\ linecolor sh = getBurstColor 0.
Proof.
  assert (Hlt : (0 < length (bursts benchDetector))%nat) by (simpl; lia).
  assert (Hle : (length (bursts benchDetector)
                 <= length (resBursts benchResults))%nat) by (simpl; lia).
  pose proof (render_draws benchDetector benchResults Hle) as Hsome.
  destruct (render benchDetector benchResults) as [plot|] eqn:Hr;
    [|congruence].
  exists plot.
  destruct (burst_colours_agree benchDetector benchResults plot 0%nat Hr Hlt)
    as (sh & Hnth & Hcol & _).
  exists sh. split; [reflexivity|]. split; [exact Hnth | exact Hcol].
Defined.

Lemma markers_follow_peaks_witness :
  exists plot,
    render benchDetector benchResults = Some plot
    /\ (peakTrace plot = None <-> peaks benchResults = []).
Proof.
  assert (Hle : (length (bursts benchDetector)
                 <= length (resBursts benchResults))%nat) by (simpl; lia).
  pose proof (render_draws benchDetector benchResults Hle) as Hsome.
  destruct (render benchDetector benchResults) as [plot|] eqn:Hr;
    [|congruence].
  exists plot. split; [reflexivity|].
  exact (proj1 (markers_follow_peaks benchDetector benchResults plot Hr)).
Defined.

Lemma downsample_point_count_witness :
  (0 < 3)%nat /\ (3 < length [1; 2; 3; 4; 5; 6; 7; 8])%nat
  /\ (3 <= length (fst (downsample [1; 2; 3; 4; 5; 6; 7; 8]
                          [10; 20; 30; 40; 50; 60; 70; 80] 3))
      <= 2 * 3 - 1)%nat.
Proof.
  assert (Hpos : (0 < 3)%nat) by lia.
  assert (Hbig : (3 < length [1; 2; 3; 4; 5; 6; 7; 8])%nat) by (simpl; lia).
  split; [exact Hpos|]. split; [exact Hbig|].
  exact (proj2 (downsample_point_count [1; 2; 3; 4; 5; 6; 7; 8]
                  [10; 20; 30; 40; 50; 60; 70; 80] 3 Hpos Hbig)).
Defined.

Lemma downsample_first_and_last_witness :
  (0 < 3)%nat /\ (3 < length [1; 2; 3; 4; 5; 6; 7; 8])%nat
  /\ nth_error (fst (downsample [1; 2; 3; 4; 5; 6; 7; 8]
                       [10; 20; 30; 40; 50; 60; 70; 80] 3)) 0
     = nth_error [1; 2; 3; 4; 5; 6; 7; 8] 0.
Proof.
  assert (Hpos : (0 < 3)%nat) by lia.
  assert (Hbig : (3 < length [1; 2; 3; 4; 5; 6; 7; 8])%nat) by (simpl; lia).
  split; [exact Hpos|]. split; [exact Hbig|].
  exact (proj1 (downsample_first_and_last [1; 2; 3; 4; 5; 6; 7; 8]
                  [10; 20; 30; 40; 50; 60; 70; 80] 3 Hpos Hbig)).
Defined.

Lemma ffmpeg_urls_ignore_closing_slash_witness :
  getFFmpegURLs "core.js" "core.wasm" (Some "/wp/")%string
  = getFFmpegURLs "core.js" "core.wasm" (Some "/wp")%string.
Proof.
  assert (Hne : "/wp"%string <> EmptyString) by discriminate.
  assert (Hno : forall v, "/wp"%string <> (v ++ "/")%string).
  { intros v Hv.
    pose proof (f_equal stripTrailingSlash Hv) as Hs.
    rewrite strip_appended_slash in Hs. simpl in Hs. subst v.
    simpl in Hv. discriminate Hv. }
  exact (proj1 (ffmpeg_urls_ignore_closing_slash "core.js" "core.wasm" "/wp"
                  Hne Hno)).
Defined.

Lemma report_name_length_witness :
  calendar (mkDateParts 10 1 2026 9 5)
  /\ String.length (getROFFileName (mkDateParts 10 1 2026 9 5))
     = (22 + String.length (String_ 2026))%nat.
Proof.
  assert (Hcal : calendar (mkDateParts 10 1 2026 9 5)).
  { unfold calendar. simpl. lia. }
  split; [exact Hcal|].
  exact (proj1 (report_name_length (mkDateParts 10 1 2026 9 5) Hcal)).
Defined.

Lemma report_name_injective_witness :
  calendar (mkDateParts 10 1 2026 9 5)
  /\ (getROFFileName (mkDateParts 10 1 2026 9 5)
      = getROFFileName (mkDateParts 10 1 2026 9 5) ->
      mkDateParts 10 1 2026 9 5 = mkDateParts 10 1 2026 9 5).
Proof.
  assert (Hcal : calendar (mkDateParts 10 1 2026 9 5)).
  { unfold calendar. simpl. lia. }
  split; [exact Hcal|].
  exact (report_name_injective (mkDateParts 10 1 2026 9 5)
           (mkDateParts 10 1 2026 9 5) Hcal Hcal).
Defined.

Lemma shortcode_check_is_sticky_witness :
  fst (current_page_has_shortcode benchHasShortcode
         (mkWordPress true (Some "Try it: [f3ds_rof]"%string) false)
         (mkRequest false [] EmptyString [] [] [])) = true
  /\ fst (current_page_has_shortcode benchHasShortcode
            (mkWordPress false None false)
            (snd (current_page_has_shortcode benchHasShortcode
                    (mkWordPress true (Some "Try it: [f3ds_rof]"%string) false)
                    (mkRequest false [] EmptyString [] [] [])))) = true.
Proof.
  assert (Hyes : fst (current_page_has_shortcode benchHasShortcode
                        (mkWordPress true (Some "Try it: [f3ds_rof]"%string)
                           false)
                        (mkRequest false [] EmptyString [] [] [])) = true)
    by reflexivity.
  split; [exact Hyes|].
  rewrite (proj1 (shortcode_check_is_sticky benchHasShortcode
                    (mkWordPress true (Some "Try it: [f3ds_rof]"%string) false)
                    (mkWordPress false None false)
                    (mkRequest false [] EmptyString [] [] [])) Hyes).
  reflexivity.
Defined.

Lemma hooks_are_gated_witness :
  carriesShortcode benchHasShortcode
    (mkWordPress true (Some "No tool here"%string) false) = false
  /\ runHooks benchHasShortcode (fun u => u) "/wp/"%string
       (mkWordPress true (Some "No tool here"%string) false)
       [SendIsolationHeaders; InjectCoiServiceworker; EnqueueAssets]
       (mkRequest false [] EmptyString [] [] [])
     = mkRequest false [] EmptyString [] [] [].
Proof.
  assert (Hpage : carriesShortcode benchHasShortcode
                    (mkWordPress true (Some "No tool here"%string) false)
                  = false) by reflexivity.
  split; [exact Hpage|].
  exact (proj1 (hooks_are_gated benchHasShortcode (fun u => u) "/wp/"%string
                  (mkWordPress true (Some "No tool here"%string) false)
                  [SendIsolationHeaders; InjectCoiServiceworker; EnqueueAssets]
                  (mkRequest false [] EmptyString [] [] []))
           eq_refl Hpage).
Defined.

Lemma distant_clicks_commute_witness :
  increasing [1#4; 3#4] /\ 2#100 <= Qabs ((1#2) - 1)
  /\ exists da db,
       detector (@onPeakToggle bench 1
                   (@onPeakToggle bench (1#2)
                      (benchSession 100 100 [1#4; 3#4]))) = Some da
       /\ detector (@onPeakToggle bench (1#2)
                      (@onPeakToggle bench 1
                         (benchSession 100 100 [1#4; 3#4]))) = Some db
       /\ shotTimes da = shotTimes db.
Proof.
  assert (Hinc : increasing [1#4; 3#4]) by (repeat constructor).
  assert (Hfar : 2#100 <= Qabs ((1#2) - 1)) by closed_fact.
  split; [exact Hinc|]. split; [exact Hfar|].
  destruct (@distant_clicks_commute bench (benchSession 100 100 [1#4; 3#4])
              _ _ (1#2) 1 eq_refl eq_refl Hinc Hfar)
    as (da & db & ra & rb & Hda & Hdb & _ & _ & Hts & _).
  exists da, db. split; [exact Hda|]. split; [exact Hdb | exact Hts].
Defined.

Lemma clicks_keep_shots_apart_witness :
  apart [1#4; 3#4]
  /\ exists d',
       detector (@toggles bench [65#256; 1#2; 3#4]
                   (benchSession 100 100 [1#4; 3#4])) = Some d'
       /\ apart (shotTimes d').
Proof.
  assert (Hap : apart [1#4; 3#4]).
  { repeat constructor. closed_fact. }
  split; [exact Hap|].
  destruct (@clicks_keep_shots_apart bench [65#256; 1#2; 3#4]
              (benchSession 100 100 [1#4; 3#4]) _ _ eq_refl eq_refl Hap)
    as (d' & Hd & Hap' & _).
  exists d'. split; [exact Hd | exact Hap'].
Defined.

Lemma plotted_time_names_its_sample_witness :
  1 <= 48000 /\ 48000 <= 2 ^ 20
  /\ exists t res',
       nth_error (createTimeArray 3 48000) 1 = Some (Some t)
       /\ Math_round (fmul t 48000) = 1%Z
       /\ currentResults (@onPeakToggle bench t (benchSession 48000 3 []))
          = Some res'
       /\ In 1%Z (peaks res').
Proof.
  assert (Hlo : 1 <= 48000) by discriminate.
  assert (Hhi : 48000 <= 2 ^ 20) by closed_fact.
  split; [exact Hlo|]. split; [exact Hhi|].
  assert (Hlen : (Z.of_nat (length (repeat 0 3)) <= 2 ^ 20)%Z) by closed_fact.
  assert (Hi : (1 < length (repeat 0 3))%nat) by (simpl; lia).
  destruct (@plotted_time_names_its_sample bench (benchSession 48000 3 []) _ _
              1%nat eq_refl eq_refl Hlo Hhi Hlen Hi)
    as (t & Ht & Hidx & Hclick).
  destruct (Hclick (Forall_nil _)) as (res' & Hc & Hin & _).
  exists t, res'. split; [exact Ht|]. split; [exact Hidx|].
  split; [exact Hc | exact Hin].
Defined.
